(** * Commodity futures simulator: the Monte Carlo engine of [src/simulator.py]

    A shallow embedding of [CommoditySimulator] (price generation, the four
    hedging pay-offs, the risk metrics and the histograms) together with the
    properties the specification states about it.

    Numbers.  The program computes with NumPy double-precision arrays.  Here a
    finite float is a real number ([R]) and every arithmetic operation is
    exact, so rounding and overflow are outside the development.  What is kept
    of IEEE arithmetic is the place where a value stops being a finite number:
    a division by zero and the square root of a negative number.  A scalar
    that may be nan or inf is an [option R] with [None] for "not finite"; a
    whole computation that leaves the finite numbers ends in [NotFinite] and
    is not followed further.

    Two results of the program depend on rounding in a way exact arithmetic
    does not show, and no theorem over the reals decides them.  The standard
    deviation of a vector whose entries are all equal is 0 over the reals,
    while in double precision the mean of such a vector can miss the entries
    by a unit in the last place (the mean of three entries 0.1 is
    0.10000000000000002) and the deviation then is a tiny positive number,
    which passes the test [std_pnl > 0] of the Sharpe ratio; module
    [float64] evaluates this case on binary64 numbers.  Likewise the bin of
    a value that lies within rounding of a bin edge can differ by one from
    the bin computed over the reals.  Statements about constant vectors are
    therefore limited to what holds in both arithmetics (extremes,
    percentiles, drawdown), and statements about histograms do not name the
    bin of such a value.

    NumPy.  The functions of module [np] follow the documented behaviour of
    the NumPy calls the source makes (default arguments as in the source). *)

From Stdlib Require Import String.
From Stdlib Require Import Reals Lra Lia List ZArith Permutation Sorted.
From Stdlib Require PrimFloat.
Import (notations) PrimFloat.
Import ListNotations.
#[local] Set Warnings "-inexact-float".
Open Scope R_scope.

(** ** Outcomes of a call *)

(** Python exceptions the engine can end in: the [ValueError] raised by
    [calculate_pnl] itself, and an exception raised from inside a NumPy call
    (negative array size, reduction of an empty array). *)
Inductive exn : Type :=
| ValueError (msg : string)
| NumpyError.

Inductive outcome (A : Type) : Type :=
| Ok (a : A)
| Raise (e : exn)
| NotFinite.
Arguments Ok {A} a.
Arguments Raise {A} e.
Arguments NotFinite {A}.

Definition bind {A B : Type} (c : outcome A) (k : A -> outcome B) : outcome B :=
  match c with
  | Ok a => k a
  | Raise e => Raise e
  | NotFinite => NotFinite
  end.

Notation "x <- c ;; k" := (bind c (fun x => k))
  (at level 61, c at next level, right associativity).

Fixpoint mapM {A B : Type} (f : A -> outcome B) (l : list A) : outcome (list B) :=
  match l with
  | [] => Ok []
  | x :: t => y <- f x ;; ys <- mapM f t ;; Ok (y :: ys)
  end.

(** Float division [a / b]: not finite when the divisor is zero. *)
Definition fdiv (a b : R) : option R :=
  if Req_dec_T b 0 then None else Some (a / b).

(** A scalar used inside an array expression: the computation is left when it
    is not finite. *)
Definition finite (x : option R) : outcome R :=
  match x with
  | Some r => Ok r
  | None => NotFinite
  end.

(** ** The NumPy calls of the source *)

Module np.

(** [np.random.standard_normal(n)]: [n] fresh variates; [rng i] is the
    [i]-th variate the generator delivers.  A negative size is refused. *)
Definition standard_normal (rng : nat -> R) (n : Z) : outcome (list R) :=
  if (n <? 0)%Z then Raise NumpyError
  else Ok (map rng (seq 0 (Z.to_nat n))).

(** [np.sqrt] of a scalar: nan below zero. *)
Definition sqrt (x : R) : option R :=
  if Rle_dec 0 x then Some (R_sqrt.sqrt x) else None.

Definition clip (x lo hi : R) : R := Rmin (Rmax x lo) hi.

(** [np.full_like(a, v)] *)
Definition full_like (a : list R) (v : R) : list R := map (fun _ => v) a.

Fixpoint sum (a : list R) : R :=
  match a with
  | [] => 0
  | x :: t => x + sum t
  end.

(** [np.mean] of a non-empty array. *)
Definition mean (a : list R) : R := sum a / INR (length a).

(** [np.mean] of an array that may be empty: the mean of an empty slice is
    nan. *)
Definition mean_or_nan (a : list R) : option R :=
  match a with
  | [] => None
  | _ :: _ => Some (mean a)
  end.

(** [np.std], population standard deviation (ddof = 0), over the reals: it is
    0 on a vector of equal entries, where the double-precision result can be
    a positive number of the order of the rounding of the mean. *)
Definition std (a : list R) : R :=
  let m := mean a in
  R_sqrt.sqrt (mean (map (fun x => (x - m) * (x - m)) a)).

(** [np.min], [np.max] of a non-empty array. *)
Definition min (a : list R) : R :=
  match a with
  | [] => 0
  | x :: t => fold_left Rmin t x
  end.

Definition max (a : list R) : R :=
  match a with
  | [] => 0
  | x :: t => fold_left Rmax t x
  end.

(** [np.sort], ascending. *)
Fixpoint insert (x : R) (l : list R) : list R :=
  match l with
  | [] => [x]
  | y :: t => if Rle_dec x y then x :: l else y :: insert x t
  end.

Fixpoint sort (a : list R) : list R :=
  match a with
  | [] => []
  | x :: t => insert x (sort t)
  end.

(** [np.maximum.accumulate]: running maximum. *)
Fixpoint accumulate_from (m : R) (a : list R) : list R :=
  match a with
  | [] => []
  | x :: t => Rmax m x :: accumulate_from (Rmax m x) t
  end.

Definition maximum_accumulate (a : list R) : list R :=
  match a with
  | [] => []
  | x :: t => x :: accumulate_from x t
  end.

(** Linear interpolation as NumPy's percentile does it: from the left
    value for [t < 0.5], from the right value otherwise. *)
Definition lerp (a b t : R) : R :=
  if Rle_dec 0.5 t then b - (b - a) * (1 - t) else a + (b - a) * t.

(** [np.percentile(a, q)] with the default method "linear", on a non-empty
    array: the virtual index [(n - 1) * q / 100] is split into the index
    below it and a fraction; at or beyond the last index both neighbours
    are the last element. *)
Definition percentile (a : list R) (q : R) : R :=
  let s := sort a in
  let n := length s in
  let virtual_index := (INR n - 1) * (q / 100) in
  let previous := Z.to_nat (Zfloor virtual_index) in
  let gamma := virtual_index - IZR (Zfloor virtual_index) in
  if Rle_dec (INR n - 1) virtual_index
  then lerp (nth (n - 1) s 0) (nth (n - 1) s 0) gamma
  else lerp (nth previous s 0) (nth (previous + 1) s 0) gamma.

(** [np.median] of a non-empty array: the middle element, or the mean of
    the two middle elements. *)
Definition median (a : list R) : R :=
  let s := sort a in
  let n := length s in
  if Nat.odd n then nth (n / 2) s 0
  else mean [nth (n / 2 - 1) s 0; nth (n / 2) s 0].

(** [np.linspace(start, stop, num)] *)
Definition linspace (start stop : R) (num : nat) : list R :=
  let step := (stop - start) / INR (num - 1) in
  map (fun i => start + INR i * step) (seq 0 num).

(** The range [np.histogram] gives itself: (0, 1) for an empty array, the
    minimum and maximum otherwise, widened by 0.5 on both sides when they
    coincide. *)
Definition outer_edges (a : list R) : R * R :=
  match a with
  | [] => (0, 1)
  | _ :: _ =>
      let first_edge := min a in
      let last_edge := max a in
      if Req_dec_T first_edge last_edge
      then (first_edge - 0.5, last_edge + 0.5)
      else (first_edge, last_edge)
  end.

(** Bin of a value among [bins] equal-width bins: the scaled position
    truncated to an integer, a position on the last edge going to the last
    bin.  Over the reals the truncated position is the bin; NumPy, whose
    position is rounded, moves a value by one bin when it falls on the wrong
    side of an edge, a step that has nothing to do here. *)
Definition bin_index (first_edge last_edge : R) (bins : nat) (v : R) : nat :=
  let f_index := (v - first_edge) / (last_edge - first_edge) * INR bins in
  let index := Z.to_nat (Zfloor f_index) in
  if Nat.eqb index bins then (index - 1)%nat else index.

Definition bincount (indices : list nat) (minlength : nat) : list nat :=
  map (fun b => count_occ Nat.eq_dec indices b) (seq 0 minlength).

(** [np.histogram(a, bins)] with an integer [bins]: the counts and the
    [bins + 1] edges. *)
Definition histogram (a : list R) (bins : nat) : list nat * list R :=
  let (first_edge, last_edge) := outer_edges a in
  let bin_edges := linspace first_edge last_edge (bins + 1) in
  let keep := filter (fun v => if Rle_dec first_edge v
                               then if Rle_dec v last_edge then true else false
                               else false) a in
  let indices := map (bin_index first_edge last_edge bins) keep in
  (bincount indices bins, bin_edges).

End np.

(** ** The simulator *)

(** The state of a [CommoditySimulator]: what [__init__] reads from the data
    loader. *)
Record CommoditySimulator : Type := {
  commodity : string;
  current_price : R;
  volatility : R
}.

(** The dictionary returned by [calculate_risk_metrics].  The three entries
    that the source computes with a division or a mean of a slice may be nan
    or inf. *)
Module metrics.
Record t : Type := {
  mean : R;
  std : R;
  min : R;
  max : R;
  var_95 : R;
  es_95 : option R;
  sharpe_ratio : option R;
  max_drawdown : option R;
  percentile_5 : R;
  percentile_25 : R;
  percentile_50 : R;
  percentile_75 : R;
  percentile_95 : R
}.
End metrics.

Record Histogram : Type := {
  counts : list nat;
  bins : list R
}.

Record SampleScenarios : Type := {
  best_case : R;
  worst_case : R;
  median : R
}.

(** The dictionary returned by [run_simulation]. *)
Module result.
Record t : Type := {
  strategy : string;
  commodity : string;
  spot_price : R;
  volume : R;
  time_horizon : Z;
  n_simulations : Z;
  metrics : metrics.t;
  histogram : Histogram;
  price_distribution : Histogram;
  sample_scenarios : SampleScenarios
}.
End result.

(** [simulate_prices]: terminal prices of a geometric Brownian motion. *)
Definition simulate_prices (self : CommoditySimulator) (rng : nat -> R)
    (spot_price : R) (time_horizon n_simulations : Z) : outcome (list R) :=
  let dt := IZR time_horizon / 12 in
  let drift := 0.02 in
  z <- np.standard_normal rng n_simulations ;;
  mapM (fun z_i =>
          sqrt_dt <- finite (np.sqrt dt) ;;
          Ok (spot_price *
              exp ((drift - 0.5 * volatility self ^ 2) * dt
                   + volatility self * sqrt_dt * z_i)))
       z.

(** [calculate_pnl]: the pay-off of every scenario under a strategy. *)
Definition calculate_pnl (volume spot_price futures_price : R)
    (final_prices : list R) (strategy : string) : outcome (list R) :=
  let unhedged_revenue := map (fun p => volume * p) final_prices in
  if String.eqb strategy "no_hedge" then
    Ok unhedged_revenue
  else if String.eqb strategy "full_hedge" then
    let hedged_revenue := volume * futures_price in
    Ok (np.full_like final_prices hedged_revenue)
  else if String.eqb strategy "partial_hedge" then
    let hedge_ratio := 0.5 in
    let hedged_volume := volume * hedge_ratio in
    let unhedged_volume := volume * (1 - hedge_ratio) in
    let hedged_revenue := hedged_volume * futures_price in
    Ok (map (fun p => hedged_revenue + unhedged_volume * p) final_prices)
  else if String.eqb strategy "dynamic_hedge" then
    mapM (fun p =>
            d <- finite (fdiv (0.5 * (futures_price - p)) futures_price) ;;
            let hedge_ratio := np.clip (0.5 + d) 0 1 in
            let hedged_revenue := volume * hedge_ratio * futures_price in
            let unhedged_revenue := volume * (1 - hedge_ratio) * p in
            Ok (hedged_revenue + unhedged_revenue))
         final_prices
  else
    Raise (ValueError ("Unknown strategy: " ++ strategy)).

(** The Sharpe expression of the source, division by division. *)
Definition sharpe (mean_pnl std_pnl : R) : option R :=
  let risk_free_rate := 0.03 in
  if Rlt_dec 0 std_pnl then
    match fdiv mean_pnl mean_pnl, fdiv std_pnl mean_pnl with
    | Some unit_mean, Some variation => fdiv (unit_mean - risk_free_rate) variation
    | _, _ => None
    end
  else Some 0.

(** All entries of an array of floats when every one is finite. *)
Fixpoint all_finite (a : list (option R)) : option (list R) :=
  match a with
  | [] => Some []
  | Some x :: t => option_map (cons x) (all_finite t)
  | None :: _ => None
  end.

(** The drawdown of the source over the descending sort of the vector, as a
    fraction. *)
Definition drawdown_fraction (pnl : list R) : option R :=
  let descending := rev (np.sort pnl) in
  let cummax := np.maximum_accumulate descending in
  let drawdown := map (fun cs => fdiv (fst cs - snd cs) (fst cs))
                      (combine cummax descending) in
  if (0 <? length drawdown)%nat then option_map np.max (all_finite drawdown)
  else Some 0.

(** [calculate_risk_metrics].  On an empty vector the reductions to a minimum
    and a maximum raise. *)
Definition calculate_risk_metrics (pnl : list R) : outcome metrics.t :=
  match pnl with
  | [] => Raise NumpyError
  | _ :: _ =>
      let mean_pnl := np.mean pnl in
      let std_pnl := np.std pnl in
      let var_95 := np.percentile pnl 5 in
      let es_95 :=
        np.mean_or_nan
          (filter (fun x => if Rle_dec x var_95 then true else false) pnl) in
      let sharpe_ratio := sharpe mean_pnl std_pnl in
      let max_drawdown := drawdown_fraction pnl in
      Ok {| metrics.mean := mean_pnl;
            metrics.std := std_pnl;
            metrics.min := np.min pnl;
            metrics.max := np.max pnl;
            metrics.var_95 := var_95;
            metrics.es_95 := es_95;
            metrics.sharpe_ratio := sharpe_ratio;
            metrics.max_drawdown := option_map (fun d => d * 100) max_drawdown;
            metrics.percentile_5 := np.percentile pnl 5;
            metrics.percentile_25 := np.percentile pnl 25;
            metrics.percentile_50 := np.percentile pnl 50;
            metrics.percentile_75 := np.percentile pnl 75;
            metrics.percentile_95 := np.percentile pnl 95 |}
  end.

(** [run_simulation]: the whole run; [rng] stands for the variates the global
    generator delivers during the call. *)
Definition run_simulation (self : CommoditySimulator) (rng : nat -> R)
    (volume spot_price : R) (time_horizon : Z) (strategy : string)
    (n_simulations : Z) : outcome result.t :=
  let spot_price :=
    if Req_dec_T spot_price 0 then current_price self else spot_price in
  final_prices <- simulate_prices self rng spot_price time_horizon n_simulations ;;
  let futures_price := spot_price in
  pnl <- calculate_pnl volume spot_price futures_price final_prices strategy ;;
  metrics <- calculate_risk_metrics pnl ;;
  let (hist, bin_edges) := np.histogram pnl 50 in
  let histogram := {| counts := hist; bins := bin_edges |} in
  let (price_hist, price_bins) := np.histogram final_prices 50 in
  let price_distribution := {| counts := price_hist; bins := price_bins |} in
  Ok {| result.strategy := strategy;
        result.commodity := commodity self;
        result.spot_price := spot_price;
        result.volume := volume;
        result.time_horizon := time_horizon;
        result.n_simulations := n_simulations;
        result.metrics := metrics;
        result.histogram := histogram;
        result.price_distribution := price_distribution;
        result.sample_scenarios :=
          {| best_case := np.max pnl;
             worst_case := np.min pnl;
             median := np.median pnl |} |}.

(** ** The data loader of [src/data_loader.py] *)

(** A price series is the list of its values; the dates of the index play no
    part in the functions below.  Dictionaries are the lists of their items
    in insertion order.  [get_commodities_info], which rounds for display,
    is not part of the development. *)

Module DataLoader.

Record params : Type := {
  name : string;
  unit : string;
  base_price : R;
  volatility : R;
  trend : R
}.

Inductive error : Type :=
| ValueError (msg : string)
| KeyError (key : string)
| IndexError.

Record t : Type := {
  commodities : list (string * params);
  historical_data : list (string * list R)
}.

(** The dictionary of [__init__]. *)
Definition default_commodities : list (string * params) :=
  [ ("CORN", {| name := "Corn"; unit := "bushels";
                base_price := 4.50; volatility := 0.25; trend := 0.02 |});
    ("WHEAT", {| name := "Wheat"; unit := "bushels";
                 base_price := 5.80; volatility := 0.28; trend := 0.01 |});
    ("SOYBEANS", {| name := "Soybeans"; unit := "bushels";
                    base_price := 11.50; volatility := 0.22; trend := 0.025 |});
    ("COFFEE", {| name := "Coffee"; unit := "lbs";
                  base_price := 1.85; volatility := 0.35; trend := 0.015 |});
    ("COTTON", {| name := "Cotton"; unit := "lbs";
                  base_price := 0.82; volatility := 0.30; trend := 0.01 |}) ]%string.

(** Dictionary access: [d[key]] and [key in d]. *)
Fixpoint lookup {V : Type} (key : string) (d : list (string * V)) : option V :=
  match d with
  | [] => None
  | (k, v) :: rest => if String.eqb key k then Some v else lookup key rest
  end.

(** A calendar date, [datetime(year, month, day)]. *)
Record datetime : Type := {
  year : Z;
  month : Z;
  day : Z
}.

Definition is_leap (y : Z) : bool :=
  ((y mod 4 =? 0) && (negb (y mod 100 =? 0) || (y mod 400 =? 0)))%Z%bool.

(** Number of days before January 1st of year [y]. *)
Definition days_before_year (y : Z) : Z :=
  ((y - 1) * 365 + (y - 1) / 4 - (y - 1) / 100 + (y - 1) / 400)%Z.

Definition days_in_month : list Z :=
  [31; 28; 31; 30; 31; 30; 31; 31; 30; 31; 30; 31]%Z.

(** Number of days of year [y] before the first day of month [m]. *)
Definition days_before_month (y m : Z) : Z :=
  (fold_right Z.add 0 (firstn (Z.to_nat (m - 1)) days_in_month)
   + (if ((2 <? m) && is_leap y)%bool then 1 else 0))%Z.

(** The proleptic Gregorian ordinal of a date ([datetime.toordinal]). *)
Definition toordinal (d : datetime) : Z :=
  (days_before_year (year d) + days_before_month (year d) (month d) + day d)%Z.

(** [pd.date_range(start, end, freq='D')]: one date per day from the start
    to the end, both included; a date is given by its ordinal. *)
Definition date_range (start stop : datetime) : list Z :=
  map (fun k => (toordinal start + Z.of_nat k)%Z)
      (seq 0 (Z.to_nat (toordinal stop - toordinal start + 1))).

Definition start_date : datetime := {| year := 2010; month := 1; day := 1 |}.
Definition end_date : datetime := {| year := 2024; month := 12; day := 31 |}.

(** The index of every generated series, and its length. *)
Definition dates : list Z := date_range start_date end_date.

Definition n_days : nat := length dates.

(** [np.cumsum] *)
Fixpoint cumsum_from (acc : R) (a : list R) : list R :=
  match a with
  | [] => []
  | x :: rest => (acc + x) :: cumsum_from (acc + x) rest
  end.

Definition cumsum (a : list R) : list R := cumsum_from 0 a.

(** The daily returns of one commodity: [np.random.normal(loc, scale, n)],
    that is [loc + scale * z] for the standard variates [z] the generator
    delivers from position [offset] on, plus the seasonal term. *)
Definition daily_returns (p : params) (rng : nat -> R) (offset : nat) : list R :=
  map (fun i =>
         (trend p / 252 + volatility p / sqrt 252 * rng (offset + i)%nat)
         + 0.1 * sin (2 * PI * INR i / 365) / sqrt 252)
      (seq 0 n_days).

Definition price_series (p : params) (rng : nat -> R) (offset : nat) : list R :=
  map (fun c => base_price p * exp c) (cumsum (daily_returns p rng offset)).

(** The loop of [_generate_historical_data]: each commodity draws its
    [n_days] variates after those of the commodities before it. *)
Fixpoint generate (items : list (string * params)) (rng : nat -> R) (offset : nat)
  : list (string * list R) :=
  match items with
  | [] => []
  | (commodity, p) :: rest =>
      (commodity, price_series p rng offset) :: generate rest rng (offset + n_days)
  end.

Definition _generate_historical_data (items : list (string * params))
    (rng : nat -> R) : list (string * list R) :=
  generate items rng 0.

(** [DataLoader()] *)
Definition init (rng : nat -> R) : t :=
  {| commodities := default_commodities;
     historical_data := _generate_historical_data default_commodities rng |}.

(** [series.iloc[-1]] *)
Definition iloc_last {A : Type} (series : list A) : error + A :=
  match rev series with
  | [] => inl IndexError
  | x :: _ => inr x
  end.

Definition get_historical_prices (self : t) (commodity : string) : error + list R :=
  match lookup commodity (historical_data self) with
  | None => inl (ValueError ("Commodity " ++ commodity ++ " not found"))
  | Some series => inr series
  end.

Definition get_current_price (self : t) (commodity : string) : error + R :=
  match lookup commodity (historical_data self) with
  | None => inl (KeyError commodity)
  | Some series => iloc_last series
  end.

(** One entry of [np.log(prices / prices.shift(1))]: not finite when the
    quotient is not a positive number. *)
Definition log_ratio (previous current : R) : option R :=
  match fdiv current previous with
  | None => None
  | Some q => if Rlt_dec 0 q then Some (ln q) else None
  end.

(** [np.log(prices / prices.shift(1))]: the first entry has no predecessor
    and is nan. *)
Definition log_returns (prices : list R) : list (option R) :=
  match prices with
  | [] => []
  | _ :: rest =>
      None :: map (fun pc => log_ratio (fst pc) (snd pc)) (combine prices rest)
  end.

(** Standard deviation with one degree of freedom removed, as pandas
    computes it. *)
Definition sample_std (a : list R) : R :=
  let m := np.mean a in
  sqrt (np.sum (map (fun x => (x - m) * (x - m)) a) / (INR (length a) - 1)).

(** The last [window] entries of a list. *)
Definition last_window {A : Type} (window : nat) (a : list A) : list A :=
  skipn (length a - window) a.

(** The last value of [returns.rolling(window).std()]: nan unless the window
    holds [window] finite observations, at least two. *)
Definition rolling_std_last (window : nat) (returns : list (option R)) : option R :=
  if (window <? 2)%nat then None
  else if (length returns <? window)%nat then None
  else option_map sample_std (all_finite (last_window window returns)).

Definition get_volatility (self : t) (commodity : string) (window : nat)
  : error + option R :=
  match lookup commodity (historical_data self) with
  | None => inl (KeyError commodity)
  | Some prices =>
      let returns := log_returns prices in
      match returns with
      | [] => inl IndexError
      | _ :: _ =>
          inr (option_map (fun s => s * sqrt 252) (rolling_std_last window returns))
      end
  end.

End DataLoader.

(** [CommoditySimulator(commodity, data_loader)]: the constructor reads the
    current price and the volatility (default window of 252 days) from the
    loader.  [None] stands for a simulator whose volatility is nan. *)
Definition simulator_init (commodity : string) (data_loader : DataLoader.t)
  : DataLoader.error + option CommoditySimulator :=
  match DataLoader.get_current_price data_loader commodity with
  | inl e => inl e
  | inr price =>
      match DataLoader.get_volatility data_loader commodity 252 with
      | inl e => inl e
      | inr None => inr None
      | inr (Some vol) =>
          inr (Some {| commodity := commodity;
                       current_price := price;
                       volatility := vol |})
      end
  end.

(** ** The strategy catalogue of [src/strategies.py] *)

Module HedgingStrategy.

Record info : Type := {
  name : string;
  description : string;
  risk_level : string;
  complexity : string
}.

(** [get_strategy_info]: the dictionary, as its items in insertion order. *)
Definition get_strategy_info : list (string * info) :=
  [ ("no_hedge",
     {| name := "No Hedge";
        description := "Full exposure to price movements. Maximum risk and reward.";
        risk_level := "High";
        complexity := "Simple" |});
    ("full_hedge",
     {| name := "Full Hedge";
        description := "Lock in futures price for entire volume. Eliminates price risk.";
        risk_level := "Low";
        complexity := "Simple" |});
    ("partial_hedge",
     {| name := "Partial Hedge (50%)";
        description := "Hedge half the volume. Balance between risk and opportunity.";
        risk_level := "Medium";
        complexity := "Simple" |});
    ("dynamic_hedge",
     {| name := "Dynamic Hedge";
        description := "Adjust hedge ratio based on price movements. Adaptive strategy.";
        risk_level := "Medium";
        complexity := "Advanced" |}) ]%string.

End HedgingStrategy.

(** ** Auxiliary notions used in the statements *)

(** The closed set of strategy identifiers. *)
Definition known_strategies : list string :=
  ["no_hedge"; "full_hedge"; "partial_hedge"; "dynamic_hedge"]%string.

(** The pay-off of one scenario under the dynamic hedge. *)
Definition dynamic_payoff (volume futures_price p : R) : R :=
  let hedge_ratio := np.clip (0.5 + 0.5 * (futures_price - p) / futures_price) 0 1 in
  volume * hedge_ratio * futures_price + volume * (1 - hedge_ratio) * p.

(** The entries of a vector at or below a threshold: [pnl[pnl <= var_95]]. *)
Definition tail_at (pnl : list R) (threshold : R) : list R :=
  filter (fun x => if Rle_dec x threshold then true else false) pnl.

(** Membership of a value in bin [i] of a histogram with the given edges:
    every bin is closed on the left and open on the right, except the last
    one, which is closed on both sides. *)
Definition in_bin (edges : list R) (i : nat) (v : R) : bool :=
  if Rle_dec (nth i edges 0) v then
    if Nat.eqb (i + 2) (length edges)
    then (if Rle_dec v (nth (i + 1) edges 0) then true else false)
    else (if Rlt_dec v (nth (i + 1) edges 0) then true else false)
  else false.

(** The spot price a run works with: the market price when the request says
    0. *)
Definition resolved_spot (self : CommoditySimulator) (spot_price : R) : R :=
  if Req_dec_T spot_price 0 then current_price self else spot_price.

(** The terminal price of one scenario, for a horizon that is not negative. *)
Definition terminal_price (self : CommoditySimulator) (spot_price : R)
    (time_horizon : Z) (z_i : R) : R :=
  spot_price *
  exp ((0.02 - 0.5 * volatility self ^ 2) * (IZR time_horizon / 12)
       + volatility self * sqrt (IZR time_horizon / 12) * z_i).

(** A simulator and a generator for concrete runs: corn at 4.50 with 25%
    volatility, and a generator that delivers 0 at every draw. *)
Definition corn : CommoditySimulator :=
  {| commodity := "CORN"; current_price := 4.5; volatility := 0.25 |}.

Definition no_shock : nat -> R := fun _ => 0.

(** ** Mean, deviation and Sharpe ratio in double precision

    The first lines of [calculate_risk_metrics] and the full-hedge branch of
    [calculate_pnl] on IEEE binary64 numbers, every operation rounded as the
    processor rounds it.  [np.mean] is the sum divided by the count;
    [np.std] subtracts the mean, squares, averages and takes the root.  NumPy
    adds an array of fewer than 8 entries from left to right, which is what
    [sum] does; longer arrays are added in blocks, which it does not
    follow. *)
Module float64.

Definition sum (a : list PrimFloat.float) : PrimFloat.float :=
  fold_left PrimFloat.add a 0%float.

Fixpoint of_nat (n : nat) : PrimFloat.float :=
  match n with
  | O => 0%float
  | S k => (of_nat k + 1)%float
  end.

Definition mean (a : list PrimFloat.float) : PrimFloat.float :=
  (sum a / of_nat (length a))%float.

Definition std (a : list PrimFloat.float) : PrimFloat.float :=
  let arrmean := mean a in
  let x := map (fun v => (v - arrmean)%float) a in
  PrimFloat.sqrt (mean (map (fun d => (d * d)%float) x)).

Definition full_like (a : list PrimFloat.float) (fill_value : PrimFloat.float)
    : list PrimFloat.float :=
  map (fun _ => fill_value) a.

(** [calculate_pnl] with strategy ['full_hedge']. *)
Definition full_hedge (volume futures_price : PrimFloat.float)
    (final_prices : list PrimFloat.float) : list PrimFloat.float :=
  let hedged_revenue := (volume * futures_price)%float in
  full_like final_prices hedged_revenue.

(** The Sharpe ratio of [calculate_risk_metrics]. *)
Definition sharpe (mean_pnl std_pnl : PrimFloat.float) : PrimFloat.float :=
  let risk_free_rate := 0.03%float in
  if (0 <? std_pnl)%float
  then ((mean_pnl / mean_pnl - risk_free_rate) / (std_pnl / mean_pnl))%float
  else 0%float.

End float64.

(** * Properties *)

(** ** The outcome monad *)

Lemma mapM_pure {A B : Type} (f : A -> outcome B) (g : A -> B) (l : list A) :
  (forall x, In x l -> f x = Ok (g x)) -> mapM f l = Ok (map g l).
Proof.
  induction l as [|x t IH]; intros Hf; simpl; [reflexivity|].
  rewrite (Hf x (or_introl eq_refl)); simpl.
  rewrite IH by (intros y Hy; apply Hf; right; exact Hy).
  reflexivity.
Qed.

Lemma mapM_not_finite {A B : Type} (f : A -> outcome B) (l : list A) :
  l <> [] -> (forall x, f x = NotFinite) -> mapM f l = NotFinite.
Proof.
  destruct l as [|x t]; [congruence|]; intros _ Hf; simpl.
  rewrite Hf; reflexivity.
Qed.

Lemma fdiv_some (a b : R) : b <> 0 -> fdiv a b = Some (a / b).
Proof. intros Hb; unfold fdiv; destruct (Req_dec_T b 0); [contradiction|reflexivity]. Qed.

Lemma fdiv_zero (a : R) : fdiv a 0 = None.
Proof. unfold fdiv; destruct (Req_dec_T 0 0); [reflexivity|congruence]. Qed.

(** ** Sums and means *)

Lemma sum_pos (a : list R) : a <> [] -> Forall (fun x => 0 < x) a -> 0 < np.sum a.
Proof.
  induction a as [|x t IH]; [congruence|]; intros _ Hall.
  inversion Hall as [|? ? Hx Ht]; subst; simpl.
  destruct t as [|y t']; [simpl; lra|].
  assert (0 < np.sum (y :: t')) by (apply IH; [discriminate|exact Ht]). lra.
Qed.

Lemma INR_length_pos {A : Type} (a : list A) : a <> [] -> 0 < INR (length a).
Proof.
  destruct a; [congruence|]; intros _.
  apply lt_0_INR; simpl; lia.
Qed.

Lemma mean_pos (a : list R) : a <> [] -> Forall (fun x => 0 < x) a -> 0 < np.mean a.
Proof.
  intros Hne Hall; unfold np.mean.
  apply Rdiv_lt_0_compat; [apply sum_pos; assumption|apply INR_length_pos; assumption].
Qed.

Lemma sum_const (c : R) (a : list R) :
  Forall (fun x => x = c) a -> np.sum a = INR (length a) * c.
Proof.
  induction 1 as [|x t Hx _ IH]; [simpl; lra|].
  change (np.sum (x :: t)) with (x + np.sum t).
  change (length (x :: t)) with (S (length t)).
  rewrite IH, S_INR, Hx; ring.
Qed.

Lemma mean_const (c : R) (a : list R) :
  a <> [] -> Forall (fun x => x = c) a -> np.mean a = c.
Proof.
  intros Hne Hall; unfold np.mean; rewrite (sum_const c) by assumption.
  pose proof (INR_length_pos a Hne); field; lra.
Qed.

(** ** Pay-offs *)

(** Case analysis on membership in the closed set of strategies. *)
Ltac each_strategy H :=
  simpl in H; destruct H as [<-|[<-|[<-|[<-|[]]]]].

Lemma clip_unit (x : R) : 0 <= np.clip x 0 1 <= 1.
Proof.
  unfold np.clip, Rmin, Rmax.
  destruct (Rle_dec x 0); destruct (Rle_dec _ 1); lra.
Qed.

Section Payoff.
Variables volume spot_price futures_price : R.

Lemma calculate_pnl_no_hedge prices :
  calculate_pnl volume spot_price futures_price prices "no_hedge"
  = Ok (map (fun p => volume * p) prices).
Proof. reflexivity. Qed.

Lemma calculate_pnl_full_hedge prices :
  calculate_pnl volume spot_price futures_price prices "full_hedge"
  = Ok (map (fun _ => volume * futures_price) prices).
Proof. reflexivity. Qed.

Lemma calculate_pnl_partial_hedge prices :
  calculate_pnl volume spot_price futures_price prices "partial_hedge"
  = Ok (map (fun p => volume * 0.5 * futures_price + volume * (1 - 0.5) * p) prices).
Proof. reflexivity. Qed.

Lemma calculate_pnl_dynamic_hedge prices :
  futures_price <> 0 ->
  calculate_pnl volume spot_price futures_price prices "dynamic_hedge"
  = Ok (map (dynamic_payoff volume futures_price) prices).
Proof.
  intros HF; unfold calculate_pnl; simpl.
  apply mapM_pure; intros p _.
  rewrite fdiv_some by exact HF; reflexivity.
Qed.

Lemma dynamic_payoff_pos p :
  0 < volume -> 0 < futures_price -> 0 < p ->
  0 < dynamic_payoff volume futures_price p.
Proof.
  intros HV HF Hp; unfold dynamic_payoff.
  set (r := np.clip _ 0 1).
  pose proof (clip_unit (0.5 + 0.5 * (futures_price - p) / futures_price)) as Hr.
  fold r in Hr.
  replace (volume * r * futures_price + volume * (1 - r) * p)
    with (volume * (r * futures_price + (1 - r) * p)) by ring.
  apply Rmult_lt_0_compat; [exact HV|].
  destruct (Rle_dec r 0.5); nra.
Qed.

(** Whatever the recognised strategy, a pay-off vector is produced, one
    entry per price. *)
Lemma calculate_pnl_known prices strategy :
  In strategy known_strategies -> futures_price <> 0 ->
  exists pnl,
    calculate_pnl volume spot_price futures_price prices strategy = Ok pnl
    /\ length pnl = length prices.
Proof.
  intros Hin HF; each_strategy Hin.
  - rewrite calculate_pnl_no_hedge; eexists; split; [reflexivity|apply length_map].
  - rewrite calculate_pnl_full_hedge; eexists; split; [reflexivity|apply length_map].
  - rewrite calculate_pnl_partial_hedge; eexists; split; [reflexivity|apply length_map].
  - rewrite calculate_pnl_dynamic_hedge by exact HF.
    eexists; split; [reflexivity|apply length_map].
Qed.

End Payoff.

(** ** Sorting, minimum and maximum *)

Lemma insert_perm (x : R) (l : list R) : Permutation (x :: l) (np.insert x l).
Proof.
  induction l as [|y t IH]; simpl; [reflexivity|].
  destruct (Rle_dec x y); [reflexivity|].
  rewrite perm_swap; apply perm_skip; exact IH.
Qed.

Lemma sort_perm (a : list R) : Permutation a (np.sort a).
Proof.
  induction a as [|x t IH]; simpl; [constructor|].
  rewrite <- insert_perm; apply perm_skip; exact IH.
Qed.

Lemma sort_length (a : list R) : length (np.sort a) = length a.
Proof. symmetry; apply Permutation_length, sort_perm. Qed.

Lemma insert_sorted (x : R) (l : list R) :
  StronglySorted Rle l -> StronglySorted Rle (np.insert x l).
Proof.
  induction 1 as [|y t Hs IH Hall]; simpl.
  - repeat constructor.
  - destruct (Rle_dec x y) as [Hxy|Hxy].
    + constructor; [constructor; assumption|].
      constructor; [exact Hxy|].
      eapply Forall_impl; [|exact Hall]; simpl; intros; lra.
    + constructor; [exact IH|].
      rewrite <- insert_perm; constructor; [lra|exact Hall].
Qed.

Lemma sort_sorted (a : list R) : StronglySorted Rle (np.sort a).
Proof.
  induction a as [|x t IH]; simpl; [constructor|apply insert_sorted, IH].
Qed.

Lemma sorted_nth_le (s : list R) :
  StronglySorted Rle s ->
  forall i j, (i <= j < length s)%nat -> nth i s 0 <= nth j s 0.
Proof.
  induction 1 as [|x t Hs IH Hall]; intros i j Hij; simpl in Hij; [lia|].
  destruct j as [|j]; [replace i with 0%nat by lia; simpl; lra|].
  destruct i as [|i]; simpl.
  - rewrite Forall_forall in Hall; apply Hall, nth_In; lia.
  - apply IH; lia.
Qed.

Lemma fold_min_le (t : list R) (x : R) :
  fold_left Rmin t x <= x /\ Forall (fun y => fold_left Rmin t x <= y) t.
Proof.
  revert x; induction t as [|y t IH]; intros x; simpl; [split; [lra|constructor]|].
  destruct (IH (Rmin x y)) as [H1 H2].
  pose proof (Rmin_l x y); pose proof (Rmin_r x y).
  split; [lra|constructor; [lra|exact H2]].
Qed.

Lemma fold_max_ge (t : list R) (x : R) :
  x <= fold_left Rmax t x /\ Forall (fun y => y <= fold_left Rmax t x) t.
Proof.
  revert x; induction t as [|y t IH]; intros x; simpl; [split; [lra|constructor]|].
  destruct (IH (Rmax x y)) as [H1 H2].
  pose proof (Rmax_l x y); pose proof (Rmax_r x y).
  split; [lra|constructor; [lra|exact H2]].
Qed.

Lemma fold_min_in (t : list R) (x : R) : In (fold_left Rmin t x) (x :: t).
Proof.
  revert x; induction t as [|y t IH]; intros x; simpl; [left; reflexivity|].
  destruct (IH (Rmin x y)) as [H|H]; [|right; right; exact H].
  unfold Rmin in H at 1; destruct (Rle_dec x y); [left|right; left]; exact H.
Qed.

Lemma fold_max_in (t : list R) (x : R) : In (fold_left Rmax t x) (x :: t).
Proof.
  revert x; induction t as [|y t IH]; intros x; simpl; [left; reflexivity|].
  destruct (IH (Rmax x y)) as [H|H]; [|right; right; exact H].
  unfold Rmax in H at 1; destruct (Rle_dec x y); [right; left|left]; exact H.
Qed.

Lemma min_le (a : list R) (x : R) : In x a -> np.min a <= x.
Proof.
  destruct a as [|y t]; [contradiction|]; intros [<-|Hin]; unfold np.min.
  - apply fold_min_le.
  - destruct (fold_min_le t y) as [_ H]; rewrite Forall_forall in H; apply H, Hin.
Qed.

Lemma max_ge (a : list R) (x : R) : In x a -> x <= np.max a.
Proof.
  destruct a as [|y t]; [contradiction|]; intros [<-|Hin]; unfold np.max.
  - apply fold_max_ge.
  - destruct (fold_max_ge t y) as [_ H]; rewrite Forall_forall in H; apply H, Hin.
Qed.

Lemma min_in (a : list R) : a <> [] -> In (np.min a) a.
Proof. destruct a; [congruence|]; intros _; apply fold_min_in. Qed.

Lemma max_in (a : list R) : a <> [] -> In (np.max a) a.
Proof. destruct a; [congruence|]; intros _; apply fold_max_in. Qed.

Lemma min_le_max (a : list R) : a <> [] -> np.min a <= np.max a.
Proof. intros Hne; apply max_ge, min_in, Hne. Qed.

Lemma sorted_nth_in (a : list R) (i : nat) :
  (i < length a)%nat -> In (nth i (np.sort a) 0) a.
Proof.
  intros Hi; apply (Permutation_in _ (Permutation_sym (sort_perm a))).
  apply nth_In; rewrite sort_length; exact Hi.
Qed.

(** ** Percentiles *)

Lemma lerp_linear (a b t : R) : np.lerp a b t = a + (b - a) * t.
Proof. unfold np.lerp; destruct (Rle_dec 0.5 t); ring. Qed.

Lemma floor_index (h : R) (n : nat) :
  0 <= h -> h < INR n - 1 ->
  (Z.to_nat (Zfloor h) + 1 < n)%nat
  /\ INR (Z.to_nat (Zfloor h)) = IZR (Zfloor h).
Proof.
  intros H0 Hn.
  assert (Hk : (0 <= Zfloor h)%Z) by (apply Zfloor_lub; simpl; lra).
  pose proof (Zfloor_bound h) as [Hlo _].
  split.
  - assert (IZR (Zfloor h) < IZR (Z.of_nat n - 1)).
    { rewrite minus_IZR, <- INR_IZR_INZ; lra. }
    apply lt_IZR in H; lia.
  - rewrite INR_IZR_INZ, Z2Nat.id by exact Hk; reflexivity.
Qed.

Section Percentile.
Variable a : list R.
Hypothesis nonempty : a <> [].

Let s := np.sort a.
Let n := length s.

Lemma length_sorted_pos : (0 < n)%nat.
Proof.
  unfold n, s; rewrite sort_length; destruct a; [congruence|simpl; lia].
Qed.

(** Between two neighbours of the sorted vector the percentile is the
    chord; from the last index on it is the last element. *)
Lemma percentile_cases (q : R) :
  0 <= q ->
  let h := (INR n - 1) * (q / 100) in
  (INR n - 1 <= h /\ np.percentile a q = nth (n - 1) s 0)
  \/ (h < INR n - 1 /\ exists k : nat,
        (k + 1 < n)%nat /\ INR k <= h < INR k + 1
        /\ np.percentile a q = nth k s 0 + (nth (k + 1) s 0 - nth k s 0) * (h - INR k)).
Proof.
  intros Hq h.
  pose proof length_sorted_pos as Hn.
  assert (Hn1 : 0 <= INR n - 1).
  { assert (1 <= INR n) by (apply (le_INR 1); lia). lra. }
  assert (Hh : 0 <= h) by (unfold h; apply Rmult_le_pos; lra).
  unfold np.percentile; fold s; fold n; fold h.
  destruct (Rle_dec (INR n - 1) h) as [Hge|Hlt].
  - left; split; [exact Hge|]. rewrite lerp_linear; ring.
  - right; split; [lra|].
    destruct (floor_index h n Hh) as [Hk Hcast]; [lra|].
    exists (Z.to_nat (Zfloor h)); split; [exact Hk|].
    pose proof (Zfloor_bound h).
    rewrite Hcast; split; [lra|].
    rewrite lerp_linear; reflexivity.
Qed.

Lemma sorted_le (i j : nat) : (i <= j < n)%nat -> nth i s 0 <= nth j s 0.
Proof. apply sorted_nth_le, sort_sorted. Qed.

Lemma percentile_mono (q1 q2 : R) :
  0 <= q1 <= q2 -> np.percentile a q1 <= np.percentile a q2.
Proof.
  intros [H1 H12].
  pose proof length_sorted_pos as Hn.
  assert (Hn1 : 0 <= INR n - 1).
  { assert (1 <= INR n) by (apply (le_INR 1); lia). lra. }
  assert (Hh : (INR n - 1) * (q1 / 100) <= (INR n - 1) * (q2 / 100))
    by (apply Rmult_le_compat_l; lra).
  destruct (percentile_cases q1 H1) as [[Ha ->]|[Ha (k1 & Hk1 & Hb1 & ->)]];
    destruct (percentile_cases q2) as [[Hc ->]|[Hc (k2 & Hk2 & Hb2 & ->)]];
    try lra.
  - pose proof (sorted_le k1 (k1 + 1)) as Hs1.
    pose proof (sorted_le (k1 + 1) (n - 1)) as Hs2.
    specialize (Hs1 ltac:(lia)); specialize (Hs2 ltac:(lia)). nra.
  - assert (Hk : (k1 <= k2)%nat).
    { assert (INR k1 < INR (k2 + 1)) by (rewrite plus_INR; simpl; lra).
      apply INR_lt in H; lia. }
    destruct (Nat.eq_dec k1 k2) as [->|Hne].
    + pose proof (sorted_le k2 (k2 + 1) ltac:(lia)). nra.
    + pose proof (sorted_le k1 (k1 + 1) ltac:(lia)).
      pose proof (sorted_le (k1 + 1) k2 ltac:(lia)).
      pose proof (sorted_le k2 (k2 + 1) ltac:(lia)). nra.
Qed.

Lemma percentile_ge_min (q : R) : 0 <= q -> np.min a <= np.percentile a q.
Proof.
  intros Hq.
  pose proof length_sorted_pos as Hn.
  assert (Hlen : n = length a) by apply sort_length.
  destruct (percentile_cases q Hq) as [[_ ->]|[_ (k & Hk & Hb & ->)]].
  - apply min_le, sorted_nth_in; lia.
  - pose proof (sorted_le k (k + 1) ltac:(lia)).
    assert (np.min a <= nth k s 0) by (apply min_le, sorted_nth_in; lia).
    nra.
Qed.

Lemma percentile_le_max (q : R) : 0 <= q -> np.percentile a q <= np.max a.
Proof.
  intros Hq.
  pose proof length_sorted_pos as Hn.
  assert (Hlen : n = length a) by apply sort_length.
  destruct (percentile_cases q Hq) as [[_ ->]|[_ (k & Hk & Hb & ->)]].
  - apply max_ge, sorted_nth_in; lia.
  - pose proof (sorted_le k (k + 1) ltac:(lia)).
    assert (nth (k + 1) s 0 <= np.max a) by (apply max_ge, sorted_nth_in; lia).
    nra.
Qed.

End Percentile.

(** ** Risk metrics *)

(** On a non-empty vector the metrics are returned, each entry as the source
    computes it. *)
Lemma calculate_risk_metrics_nonempty (pnl : list R) :
  pnl <> [] ->
  exists m,
    calculate_risk_metrics pnl = Ok m
    /\ metrics.mean m = np.mean pnl
    /\ metrics.std m = np.std pnl
    /\ metrics.min m = np.min pnl
    /\ metrics.max m = np.max pnl
    /\ metrics.var_95 m = np.percentile pnl 5
    /\ metrics.es_95 m = np.mean_or_nan (tail_at pnl (np.percentile pnl 5))
    /\ metrics.sharpe_ratio m = sharpe (np.mean pnl) (np.std pnl)
    /\ metrics.percentile_5 m = np.percentile pnl 5
    /\ metrics.percentile_25 m = np.percentile pnl 25
    /\ metrics.percentile_50 m = np.percentile pnl 50
    /\ metrics.percentile_75 m = np.percentile pnl 75
    /\ metrics.percentile_95 m = np.percentile pnl 95.
Proof.
  destruct pnl as [|x t]; [congruence|]; intros _.
  eexists; split; [reflexivity|]; simpl; repeat split; reflexivity.
Qed.

Lemma calculate_risk_metrics_empty : calculate_risk_metrics [] = Raise NumpyError.
Proof. reflexivity. Qed.

Lemma sharpe_regular (mean_pnl std_pnl : R) :
  0 < std_pnl -> mean_pnl <> 0 ->
  sharpe mean_pnl std_pnl
  = Some ((mean_pnl / mean_pnl - 0.03) / (std_pnl / mean_pnl)).
Proof.
  intros Hs Hm; unfold sharpe.
  destruct (Rlt_dec 0 std_pnl); [|contradiction].
  rewrite !fdiv_some by exact Hm.
  apply fdiv_some.
  unfold Rdiv; apply Rmult_integral_contrapositive_currified;
    [lra|apply Rinv_neq_0_compat; exact Hm].
Qed.

Lemma sharpe_flat (mean_pnl std_pnl : R) :
  std_pnl = 0 -> sharpe mean_pnl std_pnl = Some 0.
Proof.
  intros ->; unfold sharpe; destruct (Rlt_dec 0 0); [lra|reflexivity].
Qed.

Lemma sharpe_zero_mean (std_pnl : R) : 0 < std_pnl -> sharpe 0 std_pnl = None.
Proof.
  intros Hs; unfold sharpe; destruct (Rlt_dec 0 std_pnl); [|contradiction].
  rewrite fdiv_zero; reflexivity.
Qed.

Lemma tail_nonempty (pnl : list R) (threshold : R) :
  pnl <> [] -> np.min pnl <= threshold -> tail_at pnl threshold <> [].
Proof.
  intros Hne Hle Hnil.
  assert (Hin : In (np.min pnl) (tail_at pnl threshold)).
  { unfold tail_at; apply filter_In; split; [apply min_in, Hne|].
    destruct (Rle_dec (np.min pnl) threshold); [reflexivity|contradiction]. }
  rewrite Hnil in Hin; exact Hin.
Qed.

(** ** The claims about pay-offs *)

(** C3, as amended: in every scenario the partial hedge (ratio 0.5) pays the
    midpoint of the unhedged pay-off [volume * price_i] and the fully hedged
    pay-off [volume * futures_price]; it therefore lies between the two, and
    strictly between them when the volume is not zero and the price differs
    from the futures price. *)
Theorem partial_hedge_between (volume spot_price futures_price : R)
    (final_prices : list R) (i : nat) (p : R) :
  nth_error final_prices i = Some p ->
  exists no_hedge full_hedge partial_hedge,
    calculate_pnl volume spot_price futures_price final_prices "no_hedge" = Ok no_hedge
    /\ calculate_pnl volume spot_price futures_price final_prices "full_hedge" = Ok full_hedge
    /\ calculate_pnl volume spot_price futures_price final_prices "partial_hedge" = Ok partial_hedge
    /\ nth_error no_hedge i = Some (volume * p)
    /\ nth_error full_hedge i = Some (volume * futures_price)
    /\ exists v,
        nth_error partial_hedge i = Some v
        /\ v = (volume * p + volume * futures_price) / 2
        /\ Rmin (volume * p) (volume * futures_price) <= v
           <= Rmax (volume * p) (volume * futures_price)
        /\ (volume <> 0 -> p <> futures_price ->
            Rmin (volume * p) (volume * futures_price) < v
            < Rmax (volume * p) (volume * futures_price)).
Proof.
  intros Hp.
  do 3 eexists.
  rewrite calculate_pnl_no_hedge, calculate_pnl_full_hedge, calculate_pnl_partial_hedge.
  repeat (split; [reflexivity|]).
  rewrite !nth_error_map, Hp; simpl.
  repeat (split; [reflexivity|]).
  eexists; split; [reflexivity|].
  assert (Hmid : volume * 0.5 * futures_price + volume * (1 - 0.5) * p
                 = (volume * p + volume * futures_price) / 2) by lra.
  rewrite Hmid; split; [reflexivity|].
  unfold Rmin, Rmax; destruct (Rle_dec (volume * p) (volume * futures_price)).
  - split; [lra|]. intros HV Hne.
    assert (volume * p <> volume * futures_price).
    { intros Heq; apply Rmult_eq_reg_l in Heq; [contradiction|exact HV]. }
    lra.
  - split; [lra|]. intros; lra.
Qed.

Lemma partial_hedge_between_witness :
  nth_error [2] 0 = Some 2
  /\ exists no_hedge full_hedge partial_hedge,
    calculate_pnl 1 1 1 [2] "no_hedge" = Ok no_hedge
    /\ calculate_pnl 1 1 1 [2] "full_hedge" = Ok full_hedge
    /\ calculate_pnl 1 1 1 [2] "partial_hedge" = Ok partial_hedge
    /\ nth_error no_hedge 0 = Some (1 * 2)
    /\ nth_error full_hedge 0 = Some (1 * 1)
    /\ exists v,
        nth_error partial_hedge 0 = Some v
        /\ v = (1 * 2 + 1 * 1) / 2
        /\ Rmin (1 * 2) (1 * 1) <= v <= Rmax (1 * 2) (1 * 1)
        /\ (1 <> 0 -> 2 <> 1 -> Rmin (1 * 2) (1 * 1) < v < Rmax (1 * 2) (1 * 1)).
Proof.
  split; [reflexivity|].
  apply (partial_hedge_between 1 1 1 [2] 0 2); reflexivity.
Defined.

(** C3 as the specification words it fails: when a terminal price equals the
    futures price the three pay-offs coincide, so the partial hedge is not
    strictly between the other two. *)
Lemma partial_hedge_not_strict :
  calculate_pnl 1 1 1 [1] "no_hedge" = Ok [1 * 1]
  /\ calculate_pnl 1 1 1 [1] "full_hedge" = Ok [1 * 1]
  /\ calculate_pnl 1 1 1 [1] "partial_hedge" = Ok [1 * 0.5 * 1 + 1 * (1 - 0.5) * 1]
  /\ ~ (Rmin (1 * 1) (1 * 1) < 1 * 0.5 * 1 + 1 * (1 - 0.5) * 1
                                < Rmax (1 * 1) (1 * 1)).
Proof.
  repeat (split; [reflexivity|]).
  unfold Rmin, Rmax; destruct (Rle_dec (1 * 1) (1 * 1)); lra.
Qed.

(** C4: a strategy identifier outside the four recognised ones makes
    [calculate_pnl] raise the "Unknown strategy" error; no pay-off vector is
    returned, in particular not the unhedged one. *)
Theorem unknown_strategy_raises (volume spot_price futures_price : R)
    (final_prices : list R) (strategy : string) :
  ~ In strategy known_strategies ->
  calculate_pnl volume spot_price futures_price final_prices strategy
  = Raise (ValueError ("Unknown strategy: " ++ strategy))
  /\ forall pnl,
      calculate_pnl volume spot_price futures_price final_prices strategy <> Ok pnl.
Proof.
  intros Hnot.
  assert (Hraise : calculate_pnl volume spot_price futures_price final_prices strategy
                   = Raise (ValueError ("Unknown strategy: " ++ strategy))).
  { unfold calculate_pnl.
    repeat match goal with
    | |- context [String.eqb strategy ?s] =>
        destruct (String.eqb_spec strategy s) as [Heq|_];
        [exfalso; apply Hnot; rewrite Heq; simpl; tauto|]
    end.
    reflexivity. }
  split; [exact Hraise|]. intros pnl; rewrite Hraise; discriminate.
Qed.

Lemma unknown_strategy_raises_witness :
  ~ In "foo_hedge"%string known_strategies
  /\ calculate_pnl 10000 4.5 4.5 [4; 5] "foo_hedge"
     = Raise (ValueError "Unknown strategy: foo_hedge").
Proof.
  assert (H : ~ In "foo_hedge"%string known_strategies).
  { simpl; intros [H|[H|[H|[H|[]]]]]; discriminate H. }
  split; [exact H|].
  exact (proj1 (unknown_strategy_raises 10000 4.5 4.5 [4; 5] "foo_hedge" H)).
Defined.

(** C8: with positive prices, a positive volume and a positive futures
    price, each of the four strategies pays a strictly positive amount in
    every scenario; the mean pay-off is then strictly positive, so the
    divisions by the mean in the Sharpe expression are divisions by a
    non-zero number and the ratio is a finite number. *)
Theorem payoffs_positive (volume spot_price futures_price : R)
    (final_prices : list R) (strategy : string) :
  final_prices <> [] ->
  Forall (fun p => 0 < p) final_prices ->
  0 < volume -> 0 < futures_price ->
  In strategy known_strategies ->
  exists pnl m,
    calculate_pnl volume spot_price futures_price final_prices strategy = Ok pnl
    /\ Forall (fun v => 0 < v) pnl
    /\ calculate_risk_metrics pnl = Ok m
    /\ 0 < metrics.mean m
    /\ fdiv (metrics.mean m) (metrics.mean m) = Some 1
    /\ fdiv (metrics.std m) (metrics.mean m) = Some (metrics.std m / metrics.mean m)
    /\ exists ratio, metrics.sharpe_ratio m = Some ratio.
Proof.
  intros Hne Hpos HV HF Hin.
  assert (Hpnl : exists pnl,
            calculate_pnl volume spot_price futures_price final_prices strategy = Ok pnl
            /\ pnl <> [] /\ Forall (fun v => 0 < v) pnl).
  { assert (Hmap : forall f : R -> R, map f final_prices <> []).
    { intros f Hnil; apply map_eq_nil in Hnil; contradiction. }
    each_strategy Hin.
    - rewrite calculate_pnl_no_hedge; eexists; split; [reflexivity|].
      split; [apply Hmap|]. apply Forall_map.
      eapply Forall_impl; [|exact Hpos]; simpl; intros p Hp.
      apply Rmult_lt_0_compat; assumption.
    - rewrite calculate_pnl_full_hedge; eexists; split; [reflexivity|].
      split; [apply Hmap|]. apply Forall_map.
      eapply Forall_impl; [|exact Hpos]; simpl; intros p Hp.
      apply Rmult_lt_0_compat; assumption.
    - rewrite calculate_pnl_partial_hedge; eexists; split; [reflexivity|].
      split; [apply Hmap|]. apply Forall_map.
      eapply Forall_impl; [|exact Hpos]; simpl; intros p Hp. nra.
    - rewrite calculate_pnl_dynamic_hedge by lra; eexists; split; [reflexivity|].
      split; [apply Hmap|]. apply Forall_map.
      eapply Forall_impl; [|exact Hpos]; simpl; intros p Hp.
      apply dynamic_payoff_pos; assumption. }
  destruct Hpnl as (pnl & Hcalc & Hpne & Hall).
  destruct (calculate_risk_metrics_nonempty pnl Hpne)
    as (m & Hm & Hmean & Hstd & _ & _ & _ & _ & Hsharpe & _).
  assert (Hmpos : 0 < metrics.mean m) by (rewrite Hmean; apply mean_pos; assumption).
  exists pnl, m; repeat (split; [assumption|]).
  split; [rewrite fdiv_some by lra; f_equal; field; lra|].
  split; [apply fdiv_some; lra|].
  rewrite Hsharpe, <- Hmean, <- Hstd.
  destruct (Rlt_dec 0 (metrics.std m)) as [Hs|Hs].
  - rewrite sharpe_regular by lra; eexists; reflexivity.
  - unfold sharpe; destruct (Rlt_dec 0 (metrics.std m)); [contradiction|].
    eexists; reflexivity.
Qed.

Lemma payoffs_positive_witness :
  exists pnl m,
    calculate_pnl 10000 4.5 4.5 [4; 5] "dynamic_hedge" = Ok pnl
    /\ Forall (fun v => 0 < v) pnl
    /\ calculate_risk_metrics pnl = Ok m
    /\ 0 < metrics.mean m
    /\ fdiv (metrics.mean m) (metrics.mean m) = Some 1
    /\ fdiv (metrics.std m) (metrics.mean m) = Some (metrics.std m / metrics.mean m)
    /\ exists ratio, metrics.sharpe_ratio m = Some ratio.
Proof.
  apply (payoffs_positive 10000 4.5 4.5 [4; 5] "dynamic_hedge").
  - discriminate.
  - repeat constructor; lra.
  - lra.
  - lra.
  - simpl; tauto.
Defined.

(** ** The claims about risk metrics *)

(** C5: on a non-empty vector the five percentiles are in non-decreasing
    order, and [var_95] is the 5th percentile itself. *)
Theorem percentiles_ordered (pnl : list R) :
  pnl <> [] ->
  exists m,
    calculate_risk_metrics pnl = Ok m
    /\ metrics.percentile_5 m <= metrics.percentile_25 m
    /\ metrics.percentile_25 m <= metrics.percentile_50 m
    /\ metrics.percentile_50 m <= metrics.percentile_75 m
    /\ metrics.percentile_75 m <= metrics.percentile_95 m
    /\ metrics.var_95 m = metrics.percentile_5 m
    /\ metrics.percentile_5 m = np.percentile pnl 5.
Proof.
  intros Hne.
  destruct (calculate_risk_metrics_nonempty pnl Hne)
    as (m & Hm & _ & _ & _ & _ & Hvar & _ & _ & H5 & H25 & H50 & H75 & H95).
  exists m; split; [exact Hm|].
  rewrite Hvar, H5, H25, H50, H75, H95.
  repeat split; try (apply percentile_mono; [exact Hne|lra]).
Qed.

Lemma percentiles_ordered_witness :
  exists m,
    calculate_risk_metrics [3; 1; 2] = Ok m
    /\ metrics.percentile_5 m <= metrics.percentile_25 m
    /\ metrics.percentile_25 m <= metrics.percentile_50 m
    /\ metrics.percentile_50 m <= metrics.percentile_75 m
    /\ metrics.percentile_75 m <= metrics.percentile_95 m
    /\ metrics.var_95 m = metrics.percentile_5 m
    /\ metrics.percentile_5 m = np.percentile [3; 1; 2] 5.
Proof.
  apply (percentiles_ordered [3; 1; 2]); discriminate.
Defined.

(** C9: on a non-empty vector the minimum is at most the 5th percentile, so
    the entries at or below [var_95] form a non-empty slice and [es_95] is
    the mean of that slice, never the mean of an empty one. *)
Theorem expected_shortfall_defined (pnl : list R) :
  pnl <> [] ->
  exists m,
    calculate_risk_metrics pnl = Ok m
    /\ np.min pnl <= metrics.var_95 m
    /\ In (np.min pnl) (tail_at pnl (metrics.var_95 m))
    /\ tail_at pnl (metrics.var_95 m) <> []
    /\ metrics.es_95 m = Some (np.mean (tail_at pnl (metrics.var_95 m))).
Proof.
  intros Hne.
  destruct (calculate_risk_metrics_nonempty pnl Hne)
    as (m & Hm & _ & _ & _ & _ & Hvar & Hes & _).
  exists m; split; [exact Hm|].
  assert (Hmin : np.min pnl <= metrics.var_95 m).
  { rewrite Hvar; apply percentile_ge_min; [exact Hne|lra]. }
  pose proof (tail_nonempty pnl _ Hne Hmin) as Htail.
  split; [exact Hmin|]. split.
  { unfold tail_at; apply filter_In; split; [apply min_in, Hne|].
    destruct (Rle_dec (np.min pnl) (metrics.var_95 m)); [reflexivity|contradiction]. }
  split; [exact Htail|].
  rewrite Hes, <- Hvar.
  destruct (tail_at pnl (metrics.var_95 m)); [congruence|reflexivity].
Qed.

Lemma expected_shortfall_defined_witness :
  exists m,
    calculate_risk_metrics [3; 1; 2] = Ok m
    /\ np.min [3; 1; 2] <= metrics.var_95 m
    /\ In (np.min [3; 1; 2]) (tail_at [3; 1; 2] (metrics.var_95 m))
    /\ tail_at [3; 1; 2] (metrics.var_95 m) <> []
    /\ metrics.es_95 m = Some (np.mean (tail_at [3; 1; 2] (metrics.var_95 m))).
Proof.
  apply (expected_shortfall_defined [3; 1; 2]); discriminate.
Defined.

(** C2, as amended: on a non-empty vector with positive standard deviation
    and a mean different from zero, the Sharpe ratio is the expression
    [(mean/mean - 0.03) / (std/mean)], which is [(1 - 0.03) * mean / std];
    with standard deviation zero it is exactly 0.  With positive standard
    deviation and mean zero the expression divides zero by zero and the
    ratio is not a number. *)
Theorem sharpe_ratio_formula (pnl : list R) :
  pnl <> [] ->
  exists m,
    calculate_risk_metrics pnl = Ok m
    /\ metrics.mean m = np.mean pnl
    /\ metrics.std m = np.std pnl
    /\ (0 < metrics.std m -> metrics.mean m <> 0 ->
        metrics.sharpe_ratio m
        = Some ((metrics.mean m / metrics.mean m - 0.03)
                / (metrics.std m / metrics.mean m))
        /\ (metrics.mean m / metrics.mean m - 0.03) / (metrics.std m / metrics.mean m)
           = (1 - 0.03) * metrics.mean m / metrics.std m)
    /\ (metrics.std m = 0 -> metrics.sharpe_ratio m = Some 0)
    /\ (0 < metrics.std m -> metrics.mean m = 0 -> metrics.sharpe_ratio m = None).
Proof.
  intros Hne.
  destruct (calculate_risk_metrics_nonempty pnl Hne)
    as (m & Hm & Hmean & Hstd & _ & _ & _ & _ & Hsharpe & _).
  exists m; repeat (split; [assumption|]).
  rewrite Hsharpe, <- Hmean, <- Hstd.
  split; [|split].
  - intros Hs Hnz; split; [apply sharpe_regular; assumption|field; lra].
  - apply sharpe_flat.
  - intros Hs ->; apply sharpe_zero_mean, Hs.
Qed.

Lemma mean_minus_plus : np.mean [-1; 1] = 0.
Proof. unfold np.mean; simpl; lra. Qed.

Lemma std_minus_plus : np.std [-1; 1] = 1.
Proof.
  unfold np.std; rewrite mean_minus_plus.
  replace (np.mean _) with 1 by (unfold np.mean; simpl; lra).
  apply sqrt_1.
Qed.

Lemma sharpe_ratio_formula_witness :
  exists m,
    calculate_risk_metrics [-1; 1] = Ok m
    /\ metrics.mean m = np.mean [-1; 1]
    /\ metrics.std m = np.std [-1; 1]
    /\ (0 < metrics.std m -> metrics.mean m <> 0 ->
        metrics.sharpe_ratio m
        = Some ((metrics.mean m / metrics.mean m - 0.03)
                / (metrics.std m / metrics.mean m))
        /\ (metrics.mean m / metrics.mean m - 0.03) / (metrics.std m / metrics.mean m)
           = (1 - 0.03) * metrics.mean m / metrics.std m)
    /\ (metrics.std m = 0 -> metrics.sharpe_ratio m = Some 0)
    /\ (0 < metrics.std m -> metrics.mean m = 0 -> metrics.sharpe_ratio m = None).
Proof.
  apply (sharpe_ratio_formula [-1; 1]); discriminate.
Defined.

(** C2 as the specification words it fails: the vector [-1, 1] has standard
    deviation 1 and mean 0; the source evaluates 0/0, the ratio is not a
    number, while [(1 - 0.03) * mean / std] is 0. *)
Lemma sharpe_ratio_zero_mean :
  exists m,
    calculate_risk_metrics [-1; 1] = Ok m
    /\ 0 < metrics.std m
    /\ (1 - 0.03) * metrics.mean m / metrics.std m = 0
    /\ metrics.sharpe_ratio m = None
    /\ metrics.sharpe_ratio m <> Some ((1 - 0.03) * metrics.mean m / metrics.std m).
Proof.
  eexists; split; [reflexivity|]; simpl.
  rewrite std_minus_plus, mean_minus_plus.
  split; [lra|]. split; [lra|].
  rewrite sharpe_zero_mean by lra. split; [reflexivity|discriminate].
Qed.

(** ** Histograms *)

Lemma indicator_sum (x start len : nat) :
  list_sum (map (fun b => if Nat.eq_dec x b then 1%nat else 0%nat) (seq start len))
  = if andb (start <=? x)%nat (x <? start + len)%nat then 1%nat else 0%nat.
Proof.
  revert start; induction len as [|len IH]; intros start; simpl.
  - destruct (Nat.leb_spec start x), (Nat.ltb_spec x (start + 0)); simpl; lia.
  - rewrite IH.
    destruct (Nat.eq_dec x start), (Nat.leb_spec start x),
      (Nat.leb_spec (S start) x), (Nat.ltb_spec x (S start + len)),
      (Nat.ltb_spec x (start + S len)); simpl; lia.
Qed.

Lemma list_sum_map_add {A : Type} (f g : A -> nat) (l : list A) :
  list_sum (map (fun b => (f b + g b)%nat) l)
  = (list_sum (map f l) + list_sum (map g l))%nat.
Proof. induction l as [|b l IH]; simpl; [reflexivity|rewrite IH; lia]. Qed.

Lemma bincount_sum (indices : list nat) (minlength : nat) :
  Forall (fun i => (i < minlength)%nat) indices ->
  list_sum (np.bincount indices minlength) = length indices.
Proof.
  unfold np.bincount; induction 1 as [|x t Hx _ IH].
  - simpl; induction (seq 0 minlength); simpl; [reflexivity|assumption].
  - rewrite (map_ext _ (fun b => ((if Nat.eq_dec x b then 1 else 0)
                                  + count_occ Nat.eq_dec t b)%nat)).
    + rewrite list_sum_map_add, indicator_sum.
      etransitivity; [apply f_equal; exact IH|].
      destruct (Nat.leb_spec 0 x), (Nat.ltb_spec x (0 + minlength)); simpl; lia.
    + intros b; simpl; destruct (Nat.eq_dec x b); reflexivity.
Qed.

Lemma bincount_nth (indices : list nat) (minlength i : nat) :
  (i < minlength)%nat ->
  nth i (np.bincount indices minlength) 0%nat = count_occ Nat.eq_dec indices i.
Proof.
  intros Hi; unfold np.bincount.
  rewrite (nth_indep _ 0%nat (count_occ Nat.eq_dec indices 0%nat))
    by (rewrite length_map, length_seq; exact Hi).
  rewrite (map_nth (fun b => count_occ Nat.eq_dec indices b)), seq_nth by exact Hi.
  reflexivity.
Qed.

Lemma count_occ_map_filter {A : Type} (f : A -> nat) (l : list A) (i : nat) :
  count_occ Nat.eq_dec (map f l) i = length (filter (fun v => Nat.eqb (f v) i) l).
Proof.
  induction l as [|x t IH]; simpl; [reflexivity|].
  destruct (Nat.eq_dec (f x) i) as [->|Hne].
  - rewrite Nat.eqb_refl; simpl; rewrite IH; reflexivity.
  - apply Nat.eqb_neq in Hne; rewrite Hne; exact IH.
Qed.

Lemma filter_all {A : Type} (f : A -> bool) (l : list A) :
  Forall (fun x => f x = true) l -> filter f l = l.
Proof.
  induction 1 as [|x t Hx _ IH]; simpl; [reflexivity|].
  rewrite Hx, IH; reflexivity.
Qed.

Lemma linspace_length (start stop : R) (num : nat) :
  length (np.linspace start stop num) = num.
Proof. unfold np.linspace; rewrite length_map, length_seq; reflexivity. Qed.

Lemma linspace_nth (start stop : R) (bins i : nat) :
  (i <= bins)%nat ->
  nth i (np.linspace start stop (bins + 1)) 0
  = start + INR i * ((stop - start) / INR bins).
Proof.
  intros Hi; unfold np.linspace.
  rewrite Nat.add_sub.
  set (f := fun j : nat => start + INR j * ((stop - start) / INR bins)).
  rewrite (nth_indep _ 0 (f 0%nat)) by (rewrite length_map, length_seq; lia).
  rewrite (map_nth f), seq_nth by lia.
  reflexivity.
Qed.

Section Bins.
Variables first_edge last_edge : R.
Variable bins : nat.
Hypothesis width_pos : first_edge < last_edge.
Hypothesis bins_pos : (0 < bins)%nat.

Let step := (last_edge - first_edge) / INR bins.
Let position (v : R) := (v - first_edge) / (last_edge - first_edge) * INR bins.
Let edge (i : nat) := first_edge + INR i * step.

Lemma INR_bins_pos : 0 < INR bins.
Proof. apply lt_0_INR, bins_pos. Qed.

Lemma step_pos : 0 < step.
Proof. apply Rdiv_lt_0_compat; [lra|apply INR_bins_pos]. Qed.

Lemma position_step (v : R) : v = first_edge + position v * step.
Proof.
  unfold position, step; pose proof INR_bins_pos; field; split; lra.
Qed.

Lemma edge_le_iff (i : nat) (v : R) : edge i <= v <-> INR i <= position v.
Proof.
  pose proof step_pos as Hs; pose proof (position_step v) as Hv; unfold edge.
  split; intros H.
  - apply (Rmult_le_reg_r step); [exact Hs|lra].
  - apply (Rmult_le_compat_r step) in H; lra.
Qed.

Lemma lt_edge_iff (i : nat) (v : R) : v < edge i <-> position v < INR i.
Proof.
  pose proof step_pos as Hs; pose proof (position_step v) as Hv; unfold edge.
  split; intros H.
  - apply (Rmult_lt_reg_r step); [exact Hs|lra].
  - apply (Rmult_lt_compat_r step) in H; lra.
Qed.

Lemma edge_last : edge bins = last_edge.
Proof. unfold edge, step; pose proof INR_bins_pos; field; lra. Qed.

Lemma edge_nth (i : nat) :
  (i <= bins)%nat ->
  nth i (np.linspace first_edge last_edge (bins + 1)) 0 = edge i.
Proof. apply linspace_nth. Qed.

Section Value.
Variable v : R.
Hypothesis in_range : first_edge <= v <= last_edge.

Lemma position_range : 0 <= position v <= INR bins.
Proof.
  split.
  - apply (edge_le_iff 0); unfold edge; simpl; lra.
  - pose proof step_pos as Hs; pose proof (position_step v) as Hv.
    pose proof edge_last as Hl; unfold edge in Hl.
    apply (Rmult_le_reg_r step); [exact Hs|lra].
Qed.

Lemma position_floor :
  exists j : nat,
    Z.to_nat (Zfloor (position v)) = j
    /\ (j <= bins)%nat /\ INR j <= position v < INR j + 1.
Proof.
  pose proof position_range as [H0 Hb].
  pose proof (Zfloor_bound (position v)) as [Hlo Hhi].
  assert (Hk : (0 <= Zfloor (position v))%Z) by (apply Zfloor_lub; simpl; lra).
  assert (Hcast : INR (Z.to_nat (Zfloor (position v))) = IZR (Zfloor (position v)))
    by (rewrite INR_IZR_INZ, Z2Nat.id by exact Hk; reflexivity).
  exists (Z.to_nat (Zfloor (position v))); split; [reflexivity|].
  rewrite Hcast; split; [|lra].
  apply INR_le; rewrite Hcast; lra.
Qed.

Lemma bin_index_lt : (np.bin_index first_edge last_edge bins v < bins)%nat.
Proof.
  unfold np.bin_index; fold (position v).
  destruct position_floor as (j & -> & Hj & _).
  destruct (Nat.eqb_spec j bins); lia.
Qed.

(** The bin a value is counted in is the one whose edges enclose it: closed
    on the left, open on the right, except for the last bin, which is closed
    on both sides. *)
Lemma bin_index_spec (i : nat) :
  (i < bins)%nat ->
  np.bin_index first_edge last_edge bins v = i
  <-> edge i <= v
      /\ (if Nat.eqb (i + 1) bins then v <= edge (i + 1) else v < edge (i + 1)).
Proof.
  intros Hi.
  unfold np.bin_index; fold (position v).
  destruct position_floor as (j & -> & Hj & Hlo & Hhi).
  pose proof position_range as [_ Hb].
  rewrite edge_le_iff.
  assert (Hnat : forall a b : nat, INR a < INR b + 1 -> (a <= b)%nat).
  { intros a b H. assert (INR a < INR (b + 1)) by (rewrite plus_INR; simpl; lra).
    apply INR_lt in H0; lia. }
  assert (Hi1 : INR (i + 1) = INR i + 1) by (rewrite plus_INR; reflexivity).
  destruct (Nat.eqb_spec (i + 1) bins) as [Hlast|Hmid].
  - rewrite Hlast, edge_last.
    destruct (Nat.eqb_spec j bins) as [->|Hjb].
    + split; [intros <-|intros _; lia].
      split; [|lra]. rewrite <- Hlast in Hlo. rewrite Hi1 in Hlo. lra.
    + split; [intros <-; split; lra|]. intros [Hil _].
      assert (i <= j)%nat by (apply Hnat; lra). lia.
  - assert (Hlt : v < edge (i + 1) <-> position v < INR i + 1)
      by (rewrite lt_edge_iff, Hi1; reflexivity).
    rewrite Hlt.
    destruct (Nat.eqb_spec j bins) as [->|Hjb].
    + split; [intros <-; lia|]. intros [_ Hf].
      assert (bins <= i)%nat by (apply Hnat; lra). lia.
    + split; [intros <-; split; lra|]. intros [Hil Hf].
      assert (i <= j)%nat by (apply Hnat; lra).
      assert (j <= i)%nat by (apply Hnat; lra). lia.
Qed.

End Value.
End Bins.

Lemma outer_edges_nonempty (a : list R) :
  a <> [] ->
  exists first_edge last_edge,
    np.outer_edges a = (first_edge, last_edge)
    /\ first_edge < last_edge
    /\ Forall (fun v => first_edge <= v <= last_edge) a
    /\ (np.min a < np.max a -> first_edge = np.min a /\ last_edge = np.max a)
    /\ (np.min a = np.max a ->
        first_edge = np.min a - 0.5 /\ last_edge = np.max a + 0.5).
Proof.
  intros Hne.
  pose proof (min_le_max a Hne) as Hmm.
  assert (Hrange : Forall (fun v => np.min a <= v <= np.max a) a).
  { apply Forall_forall; intros v Hv; split; [apply min_le|apply max_ge]; exact Hv. }
  unfold np.outer_edges; destruct a as [|x t]; [congruence|].
  destruct (Req_dec_T (np.min (x :: t)) (np.max (x :: t))) as [Heq|Hneq].
  - do 2 eexists; split; [reflexivity|]. split; [lra|]. split.
    + eapply Forall_impl; [|exact Hrange]; simpl; intros; lra.
    + split; [lra|intros _; split; reflexivity].
  - do 2 eexists; split; [reflexivity|]. split; [lra|]. split; [exact Hrange|].
    split; [intros _; split; reflexivity|intros; contradiction].
Qed.

(** What [np.histogram] returns on a non-empty vector, for any positive
    number of bins. *)
Lemma histogram_spec (a : list R) (bins : nat) :
  a <> [] -> (0 < bins)%nat ->
  exists first_edge last_edge hist edges,
    np.outer_edges a = (first_edge, last_edge)
    /\ np.histogram a bins = (hist, edges)
    /\ length hist = bins
    /\ length edges = (bins + 1)%nat
    /\ (forall i, (i <= bins)%nat ->
          nth i edges 0 = first_edge + INR i * ((last_edge - first_edge) / INR bins))
    /\ (forall i, (i < bins)%nat ->
          nth i hist 0%nat = length (filter (in_bin edges i) a))
    /\ list_sum hist = length a.
Proof.
  intros Hne Hbins.
  destruct (outer_edges_nonempty a Hne) as (fe & le & Hedges & Hw & Hrange & _).
  exists fe, le.
  unfold np.histogram; rewrite Hedges.
  rewrite (filter_all _ a).
  2:{ eapply Forall_impl; [|exact Hrange]; simpl; intros v [H1 H2].
      destruct (Rle_dec fe v); [|contradiction].
      destruct (Rle_dec v le); [reflexivity|contradiction]. }
  do 2 eexists; split; [reflexivity|]. split; [reflexivity|].
  split; [unfold np.bincount; rewrite length_map, length_seq; reflexivity|].
  split; [apply linspace_length|].
  split; [intros i Hi; apply linspace_nth; exact Hi|].
  split.
  - intros i Hi.
    rewrite bincount_nth by exact Hi.
    rewrite count_occ_map_filter.
    f_equal; apply filter_ext_in; intros v Hv.
    rewrite Forall_forall in Hrange; specialize (Hrange v Hv).
    pose proof (bin_index_spec fe le bins Hw Hbins v Hrange i Hi) as Hspec.
    unfold in_bin; rewrite linspace_length.
    rewrite !linspace_nth by lia.
    replace (Nat.eqb (i + 2) (bins + 1)) with (Nat.eqb (i + 1) bins)
      by (destruct (Nat.eqb_spec (i + 1) bins), (Nat.eqb_spec (i + 2) (bins + 1));
          lia || reflexivity).
    destruct (Nat.eqb_spec (np.bin_index fe le bins v) i) as [Hb|Hb].
    + apply Hspec in Hb; destruct Hb as [H1 H2].
      destruct (Rle_dec _ v); [|contradiction].
      destruct (Nat.eqb (i + 1) bins).
      * destruct (Rle_dec v _); [reflexivity|contradiction].
      * destruct (Rlt_dec v _); [reflexivity|contradiction].
    + destruct (Rle_dec _ v) as [H1|]; [|reflexivity].
      destruct (Nat.eqb (i + 1) bins).
      * destruct (Rle_dec v _) as [H2|]; [|reflexivity].
        exfalso; apply Hb, Hspec; split; assumption.
      * destruct (Rlt_dec v _) as [H2|]; [|reflexivity].
        exfalso; apply Hb, Hspec; split; assumption.
  - rewrite bincount_sum; [apply length_map|].
    apply Forall_map, Forall_forall; intros v Hv.
    rewrite Forall_forall in Hrange.
    apply bin_index_lt; [exact Hw|exact Hbins|apply Hrange, Hv].
Qed.

Lemma INR_50 : INR 50 = 50.
Proof. rewrite INR_IZR_INZ; reflexivity. Qed.

Lemma in_bin_true (edges : list R) (i : nat) (v : R) :
  nth i edges 0 <= v ->
  (if Nat.eqb (i + 2) (length edges)
   then v <= nth (i + 1) edges 0 else v < nth (i + 1) edges 0) ->
  in_bin edges i v = true.
Proof.
  intros H1 H2; unfold in_bin.
  destruct (Rle_dec _ v); [|contradiction].
  destruct (Nat.eqb _ _).
  - destruct (Rle_dec v _); [reflexivity|contradiction].
  - destruct (Rlt_dec v _); [reflexivity|contradiction].
Qed.

Lemma in_bin_false (edges : list R) (i : nat) (v : R) :
  v < nth i edges 0 -> in_bin edges i v = false.
Proof.
  intros H; unfold in_bin; destruct (Rle_dec _ v); [lra|reflexivity].
Qed.

(** The histogram the source asks for: 50 bins. *)
Lemma histogram_fifty (a : list R) :
  a <> [] ->
  exists hist edges,
    np.histogram a 50 = (hist, edges)
    /\ length hist = 50%nat
    /\ length edges = 51%nat
    /\ (forall i, (i < 50)%nat ->
          nth (i + 1) edges 0 - nth i edges 0 = (nth 50 edges 0 - nth 0 edges 0) / 50)
    /\ nth 0 edges 0 < nth 50 edges 0
    /\ (forall i, (i < 50)%nat ->
          nth i hist 0%nat = length (filter (in_bin edges i) a))
    /\ list_sum hist = length a
    /\ (np.min a < np.max a ->
        nth 0 edges 0 = np.min a
        /\ nth 50 edges 0 = np.max a
        /\ in_bin edges 49 (np.max a) = true)
    /\ (np.min a = np.max a ->
        nth 0 edges 0 = np.min a - 0.5
        /\ nth 50 edges 0 = np.max a + 0.5
        /\ in_bin edges 49 (np.max a) = false).
Proof.
  intros Hne.
  destruct (histogram_spec a 50 Hne ltac:(lia))
    as (fe & le & hist & edges & Hedges & Hhist & Hlh & Hle & Hnth & Hcount & Hsum).
  destruct (outer_edges_nonempty a Hne) as (fe' & le' & Hedges' & Hw & Hrange & Hwide & Hflat).
  rewrite Hedges in Hedges'; injection Hedges' as <- <-.
  assert (Hedge : forall i, (i <= 50)%nat -> nth i edges 0 = fe + INR i * ((le - fe) / 50)).
  { intros i Hi; rewrite Hnth, INR_50 by exact Hi; reflexivity. }
  assert (H0 : nth 0 edges 0 = fe) by (rewrite Hedge by lia; simpl; lra).
  assert (H50 : nth 50 edges 0 = le) by (rewrite Hedge, INR_50 by lia; lra).
  assert (H49 : nth 49 edges 0 = fe + 49 * ((le - fe) / 50)).
  { rewrite Hedge by lia. replace (INR 49) with 49; [reflexivity|].
    rewrite INR_IZR_INZ; reflexivity. }
  exists hist, edges; split; [exact Hhist|]. split; [exact Hlh|]. split; [exact Hle|].
  split.
  { intros i Hi; rewrite H0, H50, !Hedge by lia. rewrite plus_INR; simpl; lra. }
  split; [rewrite H0, H50; exact Hw|].
  split; [exact Hcount|]. split; [exact Hsum|]. split.
  - intros Hlt; destruct (Hwide Hlt) as [-> ->].
    repeat (split; [assumption|]).
    apply in_bin_true; [rewrite H49; lra|].
    rewrite Hle; change (Nat.eqb (49 + 2) (50 + 1)) with true; cbv iota.
    change (49 + 1)%nat with 50%nat; rewrite H50; lra.
  - intros Heq; destruct (Hflat Heq) as [-> ->].
    repeat (split; [assumption|]).
    apply in_bin_false; rewrite H49; lra.
Qed.

(** C6, as amended: on a non-empty vector the histogram has 50 bins of equal
    width between 51 edges, every bin holds the values from its left edge
    (included) to its right edge (excluded, but included for the last bin),
    and the counts sum to the number of values.  When the values are not all
    equal the edges run from the minimum to the maximum and the maximum is
    in the last bin; when they are all equal the edges run from that value
    minus 0.5 to that value plus 0.5 and the last bin does not hold the
    maximum. *)
Theorem histogram_partition (a : list R) :
  a <> [] ->
  exists hist edges,
    np.histogram a 50 = (hist, edges)
    /\ length hist = 50%nat
    /\ length edges = 51%nat
    /\ (forall i, (i < 50)%nat ->
          nth (i + 1) edges 0 - nth i edges 0 = (nth 50 edges 0 - nth 0 edges 0) / 50)
    /\ nth 0 edges 0 < nth 50 edges 0
    /\ (forall i, (i < 50)%nat ->
          nth i hist 0%nat = length (filter (in_bin edges i) a))
    /\ list_sum hist = length a
    /\ (np.min a < np.max a ->
        nth 0 edges 0 = np.min a
        /\ nth 50 edges 0 = np.max a
        /\ in_bin edges 49 (np.max a) = true)
    /\ (np.min a = np.max a ->
        nth 0 edges 0 = np.min a - 0.5
        /\ nth 50 edges 0 = np.max a + 0.5
        /\ in_bin edges 49 (np.max a) = false).
Proof. exact (histogram_fifty a). Qed.

Lemma histogram_partition_witness :
  exists hist edges,
    np.histogram [1; 3; 2] 50 = (hist, edges)
    /\ length hist = 50%nat
    /\ length edges = 51%nat
    /\ (forall i, (i < 50)%nat ->
          nth (i + 1) edges 0 - nth i edges 0 = (nth 50 edges 0 - nth 0 edges 0) / 50)
    /\ nth 0 edges 0 < nth 50 edges 0
    /\ (forall i, (i < 50)%nat ->
          nth i hist 0%nat = length (filter (in_bin edges i) [1; 3; 2]))
    /\ list_sum hist = length [1; 3; 2]
    /\ (np.min [1; 3; 2] < np.max [1; 3; 2] ->
        nth 0 edges 0 = np.min [1; 3; 2]
        /\ nth 50 edges 0 = np.max [1; 3; 2]
        /\ in_bin edges 49 (np.max [1; 3; 2]) = true)
    /\ (np.min [1; 3; 2] = np.max [1; 3; 2] ->
        nth 0 edges 0 = np.min [1; 3; 2] - 0.5
        /\ nth 50 edges 0 = np.max [1; 3; 2] + 0.5
        /\ in_bin edges 49 (np.max [1; 3; 2]) = false).
Proof.
  apply (histogram_partition [1; 3; 2]); discriminate.
Defined.

(** C6 as the specification words it fails: the histogram of a one-value
    vector (or of any constant vector, such as the pay-offs of a full hedge)
    does not partition [min, max]; its edges start half a unit below the
    value and end half a unit above it, and the value is not in the last
    bin. *)
Lemma histogram_constant_vector :
  exists hist edges,
    np.histogram [3] 50 = (hist, edges)
    /\ np.min [3] = 3 /\ np.max [3] = 3
    /\ nth 0 edges 0 = 3 - 0.5
    /\ nth 50 edges 0 = 3 + 0.5
    /\ nth 0 edges 0 <> np.min [3]
    /\ nth 50 edges 0 <> np.max [3]
    /\ in_bin edges 49 (np.max [3]) = false.
Proof.
  destruct (histogram_fifty [3] ltac:(discriminate))
    as (hist & edges & Hh & _ & _ & _ & _ & _ & _ & _ & Hflat).
  destruct (Hflat eq_refl) as (H0 & H50 & Hlast).
  simpl in H0, H50.
  exists hist, edges; split; [exact Hh|].
  repeat (split; [first [reflexivity | assumption]|]).
  simpl; repeat split; try lra; exact Hlast.
Qed.

(** ** Median and 50th percentile *)

Lemma median_percentile (a : list R) :
  a <> [] -> np.median a = np.percentile a 50.
Proof.
  intros Hne.
  pose proof (length_sorted_pos a Hne) as Hn.
  pose proof (sorted_le a) as Hsorted.
  unfold np.median.
  set (s := np.sort a) in *; set (n := length s) in *.
  destruct (percentile_cases a Hne 50 ltac:(lra)) as [[Ha ->]|[Ha (k & Hk & Hb & ->)]];
    fold s in Ha |- *; fold n in Ha |- *.
  - (* the virtual index is the last index: a single element *)
    assert (Hone : n = 1%nat).
    { assert (INR n <= 1) by lra.
      assert (n <= 1)%nat by (apply INR_le; simpl; lra). lia. }
    rewrite Hone; reflexivity.
  - fold s in Hb |- *; fold n in Hb, Hk |- *.
    destruct (Nat.odd n) eqn:Hodd.
    + apply Nat.odd_spec in Hodd; destruct Hodd as [j Hj].
      assert (HINR : INR n = 2 * INR j + 1).
      { rewrite Hj, plus_INR, mult_INR; simpl; lra. }
      assert (Hkj : k = j).
      { assert (INR k < INR (j + 1)) by (rewrite plus_INR; simpl; lra).
        assert (INR j < INR (k + 1)) by (rewrite plus_INR; simpl; lra).
        apply INR_lt in H, H0; lia. }
      subst k.
      replace (n / 2)%nat with j by (rewrite Hj; apply (Nat.div_unique _ 2 j 1); lia).
      rewrite HINR; field.
    + assert (Heven : Nat.even n = true) by (rewrite <- Nat.negb_odd, Hodd; reflexivity).
      apply Nat.even_spec in Heven; destruct Heven as [j Hj].
      assert (HINR : INR n = 2 * INR j) by (rewrite Hj, mult_INR; simpl; lra).
      assert (Hkj : (k + 1 = j)%nat).
      { assert (INR k < INR j) by lra.
        assert (INR j < INR (k + 2)) by (rewrite plus_INR; simpl; lra).
        apply INR_lt in H, H0; lia. }
      replace (n / 2)%nat with j by (rewrite Hj; apply (Nat.div_unique _ 2 j 0); lia).
      replace (j - 1)%nat with k by lia. rewrite Hkj.
      assert (HINRj : INR j = INR k + 1) by (rewrite <- Hkj, plus_INR; simpl; lra).
      unfold np.mean; simpl. rewrite HINR, HINRj. lra.
Qed.

(** ** The whole run *)

Section Run.
Variable self : CommoditySimulator.
Variable rng : nat -> R.

Lemma simulate_prices_negative_count spot_price time_horizon n_simulations :
  (n_simulations < 0)%Z ->
  simulate_prices self rng spot_price time_horizon n_simulations = Raise NumpyError.
Proof.
  intros Hn; unfold simulate_prices, np.standard_normal.
  destruct (Z.ltb_spec n_simulations 0); [reflexivity|lia].
Qed.

Lemma simulate_prices_empty spot_price time_horizon :
  simulate_prices self rng spot_price time_horizon 0 = Ok [].
Proof. reflexivity. Qed.

Lemma simulate_prices_ok spot_price time_horizon n_simulations :
  (0 <= n_simulations)%Z -> (0 <= time_horizon)%Z ->
  simulate_prices self rng spot_price time_horizon n_simulations
  = Ok (map (terminal_price self spot_price time_horizon)
            (map rng (seq 0 (Z.to_nat n_simulations)))).
Proof.
  intros Hn Hh; unfold simulate_prices, np.standard_normal.
  destruct (Z.ltb_spec n_simulations 0); [lia|]; simpl.
  apply mapM_pure; intros z_i _.
  unfold np.sqrt.
  destruct (Rle_dec 0 (IZR time_horizon / 12)) as [_|Hneg]; [reflexivity|].
  exfalso; apply Hneg. apply IZR_le in Hh. lra.
Qed.

Lemma simulate_prices_negative_horizon spot_price time_horizon n_simulations :
  (0 < n_simulations)%Z -> (time_horizon < 0)%Z ->
  simulate_prices self rng spot_price time_horizon n_simulations = NotFinite.
Proof.
  intros Hn Hh; unfold simulate_prices, np.standard_normal.
  destruct (Z.ltb_spec n_simulations 0); [lia|]; simpl.
  apply mapM_not_finite.
  - destruct (Z.to_nat n_simulations) eqn:E; [lia|discriminate].
  - intros z_i; unfold np.sqrt.
    destruct (Rle_dec 0 (IZR time_horizon / 12)) as [Hpos|_]; [|reflexivity].
    apply IZR_lt in Hh. lra.
Qed.

Lemma simulate_prices_length spot_price time_horizon n_simulations prices :
  simulate_prices self rng spot_price time_horizon n_simulations = Ok prices ->
  length prices = Z.to_nat n_simulations.
Proof.
  intros H.
  destruct (Z.ltb_spec n_simulations 0) as [Hn|Hn].
  - rewrite simulate_prices_negative_count in H by exact Hn; discriminate.
  - destruct (Z.eq_dec n_simulations 0) as [->|Hnz].
    + rewrite simulate_prices_empty in H; injection H as <-; reflexivity.
    + destruct (Z.ltb_spec time_horizon 0) as [Hh|Hh].
      * rewrite simulate_prices_negative_horizon in H by lia; discriminate.
      * rewrite simulate_prices_ok in H by assumption; injection H as <-.
        rewrite !length_map, length_seq; reflexivity.
Qed.

(** What a run that returns has done. *)
Lemma run_simulation_ok_inv volume spot_price time_horizon strategy n_simulations r :
  run_simulation self rng volume spot_price time_horizon strategy n_simulations = Ok r ->
  exists final_prices pnl m,
    simulate_prices self rng (resolved_spot self spot_price) time_horizon n_simulations
    = Ok final_prices
    /\ calculate_pnl volume (resolved_spot self spot_price) (resolved_spot self spot_price)
         final_prices strategy = Ok pnl
    /\ pnl <> []
    /\ calculate_risk_metrics pnl = Ok m
    /\ result.metrics r = m
    /\ result.spot_price r = resolved_spot self spot_price
    /\ result.volume r = volume
    /\ result.histogram r
       = {| counts := fst (np.histogram pnl 50); bins := snd (np.histogram pnl 50) |}
    /\ result.price_distribution r
       = {| counts := fst (np.histogram final_prices 50);
            bins := snd (np.histogram final_prices 50) |}
    /\ result.sample_scenarios r
       = {| best_case := np.max pnl; worst_case := np.min pnl; median := np.median pnl |}.
Proof.
  unfold run_simulation; fold (resolved_spot self spot_price).
  destruct (simulate_prices _ _ _ _ _) as [final_prices| |] eqn:Hsim;
    simpl; try discriminate.
  destruct (calculate_pnl _ _ _ _ _) as [pnl| |] eqn:Hpnl; simpl; try discriminate.
  destruct (calculate_risk_metrics pnl) as [m| |] eqn:Hm; simpl; try discriminate.
  destruct (np.histogram pnl 50) as [hist bin_edges] eqn:Hhist.
  destruct (np.histogram final_prices 50) as [price_hist price_bins] eqn:Hprice.
  intros H; injection H as <-.
  exists final_prices, pnl, m; simpl.
  rewrite Hhist, Hprice; simpl.
  split; [reflexivity|]. split; [exact Hpnl|].
  split; [intros ->; discriminate Hm|].
  split; [exact Hm|].
  repeat (split; [reflexivity|]). reflexivity.
Qed.

(** A run returns as soon as there is at least one scenario, the horizon is
    not negative and the strategy is recognised (the dynamic hedge divides by
    the futures price, which then must not be zero). *)
Lemma run_simulation_ok volume spot_price time_horizon strategy n_simulations :
  (0 < n_simulations)%Z -> (0 <= time_horizon)%Z ->
  In strategy known_strategies ->
  resolved_spot self spot_price <> 0 \/ strategy <> "dynamic_hedge"%string ->
  exists r,
    run_simulation self rng volume spot_price time_horizon strategy n_simulations = Ok r
    /\ result.spot_price r = resolved_spot self spot_price
    /\ result.volume r = volume
    /\ result.strategy r = strategy
    /\ result.n_simulations r = n_simulations
    /\ result.time_horizon r = time_horizon.
Proof.
  intros Hn Hh Hin Hdyn.
  unfold run_simulation; fold (resolved_spot self spot_price).
  rewrite simulate_prices_ok by lia; simpl.
  set (prices := map _ (map rng _)).
  assert (Hprices : prices <> []).
  { unfold prices; destruct (Z.to_nat n_simulations) eqn:E; [lia|discriminate]. }
  assert (Hpnl : exists pnl,
            calculate_pnl volume (resolved_spot self spot_price)
              (resolved_spot self spot_price) prices strategy = Ok pnl
            /\ length pnl = length prices).
  { destruct Hdyn as [Hnz|Hnd]; [apply calculate_pnl_known; assumption|].
    each_strategy Hin; try congruence.
    - rewrite calculate_pnl_no_hedge; eexists; split; [reflexivity|apply length_map].
    - rewrite calculate_pnl_full_hedge; eexists; split; [reflexivity|apply length_map].
    - rewrite calculate_pnl_partial_hedge; eexists; split; [reflexivity|apply length_map]. }
  destruct Hpnl as (pnl & -> & Hlen); simpl.
  assert (Hpne : pnl <> []).
  { intros ->; destruct prices; [congruence|discriminate]. }
  destruct (calculate_risk_metrics_nonempty pnl Hpne) as (m & -> & _); simpl.
  destruct (np.histogram pnl 50), (np.histogram prices 50).
  eexists; split; [reflexivity|]; simpl. repeat split; reflexivity.
Qed.

End Run.

(** ** The claims about a run *)

(** C10: in the result of a run the scenario scalars repeat the risk
    metrics of the same pay-off vector: the best case is the maximum, the
    worst case is the minimum and the median is the 50th percentile. *)
Theorem scenarios_match_metrics (self : CommoditySimulator) (rng : nat -> R)
    (volume spot_price : R) (time_horizon : Z) (strategy : string)
    (n_simulations : Z) (r : result.t) :
  run_simulation self rng volume spot_price time_horizon strategy n_simulations = Ok r ->
  best_case (result.sample_scenarios r) = metrics.max (result.metrics r)
  /\ worst_case (result.sample_scenarios r) = metrics.min (result.metrics r)
  /\ median (result.sample_scenarios r) = metrics.percentile_50 (result.metrics r).
Proof.
  intros Hrun.
  destruct (run_simulation_ok_inv _ _ _ _ _ _ _ _ Hrun)
    as (final_prices & pnl & m & _ & _ & Hne & Hm & -> & _ & _ & _ & _ & ->).
  destruct (calculate_risk_metrics_nonempty pnl Hne)
    as (m' & Hm' & _ & _ & Hmin & Hmax & _ & _ & _ & _ & _ & H50 & _).
  rewrite Hm in Hm'; injection Hm' as <-.
  simpl; rewrite Hmin, Hmax, H50.
  repeat split. apply median_percentile, Hne.
Qed.

Lemma scenarios_match_metrics_witness :
  exists r,
    run_simulation corn no_shock 10000 4.5 6 "partial_hedge" 4 = Ok r
    /\ best_case (result.sample_scenarios r) = metrics.max (result.metrics r)
    /\ worst_case (result.sample_scenarios r) = metrics.min (result.metrics r)
    /\ median (result.sample_scenarios r) = metrics.percentile_50 (result.metrics r).
Proof.
  destruct (run_simulation_ok corn no_shock 10000 4.5 6 "partial_hedge" 4)
    as (r & Hr & _).
  - lia.
  - lia.
  - simpl; tauto.
  - right; discriminate.
  - exists r; split; [exact Hr|].
    exact (scenarios_match_metrics corn no_shock 10000 4.5 6 "partial_hedge" 4 r Hr).
Defined.

(** With volatility 0 the variates play no part: for a horizon and a number
    of scenarios that are not negative, every terminal price is
    [spot_price * exp (0.02 * horizon/12)] whatever the generator delivers,
    so two runs of the generator give the same prices. *)
Theorem zero_volatility_prices (self : CommoditySimulator) (rng rng' : nat -> R)
    (spot_price : R) (time_horizon n_simulations : Z) :
  volatility self = 0 ->
  (0 <= time_horizon)%Z -> (0 <= n_simulations)%Z ->
  exists prices,
    simulate_prices self rng spot_price time_horizon n_simulations = Ok prices
    /\ length prices = Z.to_nat n_simulations
    /\ Forall (fun p => p = spot_price * exp (0.02 * (IZR time_horizon / 12))) prices
    /\ simulate_prices self rng' spot_price time_horizon n_simulations = Ok prices.
Proof.
  intros Hvol Hh Hn.
  assert (Hprice : forall z_i,
            terminal_price self spot_price time_horizon z_i
            = spot_price * exp (0.02 * (IZR time_horizon / 12))).
  { intros z_i; unfold terminal_price; rewrite Hvol; do 2 f_equal; simpl; lra. }
  rewrite !simulate_prices_ok by assumption.
  eexists; split; [reflexivity|].
  split; [rewrite !length_map, length_seq; reflexivity|].
  split.
  - apply Forall_map, Forall_forall; intros z_i _; apply Hprice.
  - f_equal; rewrite !map_map; apply map_ext; intros i.
    rewrite !Hprice; reflexivity.
Qed.

Lemma zero_volatility_prices_witness :
  exists prices,
    simulate_prices {| commodity := "CORN"; current_price := 4.5; volatility := 0 |}
      (fun i => INR i) 4.5 6 3 = Ok prices
    /\ length prices = Z.to_nat 3
    /\ Forall (fun p => p = 4.5 * exp (0.02 * (IZR 6 / 12))) prices
    /\ simulate_prices {| commodity := "CORN"; current_price := 4.5; volatility := 0 |}
         no_shock 4.5 6 3 = Ok prices.
Proof.
  apply (zero_volatility_prices
           {| commodity := "CORN"; current_price := 4.5; volatility := 0 |}
           (fun i => INR i) no_shock 4.5 6 3).
  - reflexivity.
  - lia.
  - lia.
Defined.

(** C7 fails in the program where it speaks of the standard deviation: in
    double precision the deviation of the full-hedge pay-offs need not be 0.
    A run with volume 0.1, spot price 1 and three scenarios has the pay-offs
    0.1, 0.1, 0.1 whatever the three terminal prices (so with volatility 0
    as well); their mean is 0.10000000000000002, their standard deviation is
    1.3877787807814457e-17, which passes the test [std_pnl > 0], and the
    Sharpe ratio comes out as 6989586621679011 where a deviation of 0 would
    have given 0. *)
Theorem full_hedge_deviation_rounding (p1 p2 p3 : PrimFloat.float) :
  let pnl := float64.full_hedge 0.1%float 1%float [p1; p2; p3] in
  pnl = [0.1%float; 0.1%float; 0.1%float]
  /\ float64.mean pnl = 0.10000000000000002%float
  /\ float64.std pnl = 1.3877787807814457e-17%float
  /\ (0 <? float64.std pnl)%float = true
  /\ float64.sharpe (float64.mean pnl) (float64.std pnl) = 6989586621679011%float.
Proof.
  vm_compute.
  repeat split; reflexivity.
Qed.

Lemma calculate_pnl_empty (volume spot_price futures_price : R) (strategy : string) :
  In strategy known_strategies ->
  calculate_pnl volume spot_price futures_price [] strategy = Ok [].
Proof. intros Hin; each_strategy Hin; reflexivity. Qed.

Lemma calculate_pnl_cases (volume spot_price futures_price : R)
    (final_prices : list R) (strategy : string) :
  In strategy known_strategies
  \/ calculate_pnl volume spot_price futures_price final_prices strategy
     = Raise (ValueError ("Unknown strategy: " ++ strategy)).
Proof.
  unfold calculate_pnl, known_strategies.
  repeat match goal with
  | |- context [String.eqb strategy ?s] =>
      destruct (String.eqb_spec strategy s) as [->|_]; [left; simpl; tauto|]
  end.
  right; reflexivity.
Qed.

Lemma run_simulation_no_scenarios (self : CommoditySimulator) (rng : nat -> R)
    (volume spot_price : R) (time_horizon : Z) (strategy : string)
    (n_simulations : Z) :
  (n_simulations <= 0)%Z ->
  exists e,
    run_simulation self rng volume spot_price time_horizon strategy n_simulations
    = Raise e.
Proof.
  intros Hn; unfold run_simulation; fold (resolved_spot self spot_price).
  destruct (Z.eq_dec n_simulations 0) as [->|Hnz].
  - rewrite simulate_prices_empty; simpl.
    destruct (calculate_pnl_cases volume (resolved_spot self spot_price)
                (resolved_spot self spot_price) [] strategy) as [Hin | ->].
    + rewrite calculate_pnl_empty by exact Hin; simpl. eexists; reflexivity.
    + simpl; eexists; reflexivity.
  - rewrite simulate_prices_negative_count by lia; simpl. eexists; reflexivity.
Qed.

Lemma run_simulation_negative_horizon (self : CommoditySimulator) (rng : nat -> R)
    (volume spot_price : R) (time_horizon : Z) (strategy : string)
    (n_simulations : Z) :
  (0 < n_simulations)%Z -> (time_horizon < 0)%Z ->
  run_simulation self rng volume spot_price time_horizon strategy n_simulations
  = NotFinite.
Proof.
  intros Hn Hh; unfold run_simulation.
  rewrite simulate_prices_negative_horizon by assumption; reflexivity.
Qed.

Lemma resolved_spot_sentinel (self : CommoditySimulator) :
  resolved_spot self 0 = current_price self.
Proof. unfold resolved_spot; destruct (Req_dec_T 0 0); [reflexivity|congruence]. Qed.

Lemma resolved_spot_given (self : CommoditySimulator) (spot_price : R) :
  spot_price <> 0 -> resolved_spot self spot_price = spot_price.
Proof.
  intros H; unfold resolved_spot; destruct (Req_dec_T spot_price 0);
    [contradiction|reflexivity].
Qed.

(** C1, as amended: [run_simulation] checks none of its parameters.  With a
    non-positive number of scenarios the run ends in an exception (raised by
    the numerical library on a negative size or on the empty pay-off vector,
    or by the strategy dispatch) and returns nothing; with a negative horizon
    the square root of the time step is not a number and no result is
    produced either.  A non-positive volume and a horizon of zero are
    accepted: with at least one scenario, a horizon that is not negative and
    a recognised strategy the run returns a complete result whatever the
    volume.  A spot price of 0 stands for the current market price. *)
Theorem run_simulation_parameters (self : CommoditySimulator) (rng : nat -> R)
    (volume spot_price : R) (time_horizon : Z) (strategy : string)
    (n_simulations : Z) :
  ((n_simulations <= 0)%Z ->
   exists e,
     run_simulation self rng volume spot_price time_horizon strategy n_simulations
     = Raise e)
  /\ ((0 < n_simulations)%Z -> (time_horizon < 0)%Z ->
      forall r,
        run_simulation self rng volume spot_price time_horizon strategy n_simulations
        <> Ok r)
  /\ ((0 < n_simulations)%Z -> (0 <= time_horizon)%Z ->
      In strategy known_strategies ->
      resolved_spot self spot_price <> 0 \/ strategy <> "dynamic_hedge"%string ->
      exists r,
        run_simulation self rng volume spot_price time_horizon strategy n_simulations
        = Ok r
        /\ result.volume r = volume
        /\ result.spot_price r = resolved_spot self spot_price)
  /\ resolved_spot self 0 = current_price self
  /\ (spot_price <> 0 -> resolved_spot self spot_price = spot_price).
Proof.
  split; [apply run_simulation_no_scenarios|].
  split.
  { intros Hn Hh r; rewrite run_simulation_negative_horizon by assumption.
    discriminate. }
  split.
  { intros Hn Hh Hin Hdyn.
    destruct (run_simulation_ok self rng volume spot_price time_horizon strategy
                n_simulations Hn Hh Hin Hdyn) as (r & Hr & Hs & Hv & _).
    exists r; repeat split; assumption. }
  split; [apply resolved_spot_sentinel|apply resolved_spot_given].
Qed.

Lemma run_simulation_parameters_witness :
  exists r,
    run_simulation corn no_shock 0 0 6 "full_hedge" 2 = Ok r
    /\ result.volume r = 0
    /\ result.spot_price r = resolved_spot corn 0.
Proof.
  apply (run_simulation_parameters corn no_shock 0 0 6 "full_hedge" 2).
  - lia.
  - lia.
  - simpl; tauto.
  - right; discriminate.
Defined.

(** C1 as the specification words it fails: a request with a negative
    volume, and a request with a horizon of zero, both return a result. *)
Lemma nonpositive_parameters_accepted :
  -1 <= 0
  /\ (exists r,
        run_simulation corn no_shock (-1) 0 6 "no_hedge" 1 = Ok r
        /\ result.volume r = -1
        /\ result.spot_price r = current_price corn)
  /\ (0 <= 0)%Z
  /\ (exists r,
        run_simulation corn no_shock 10000 0 0 "no_hedge" 1 = Ok r
        /\ result.time_horizon r = 0%Z).
Proof.
  split; [lra|]. split.
  - destruct (run_simulation_ok corn no_shock (-1) 0 6 "no_hedge" 1)
      as (r & Hr & Hs & Hv & _);
      [lia|lia|simpl; tauto|right; discriminate|].
    exists r; split; [exact Hr|]. split; [exact Hv|].
    rewrite Hs; apply resolved_spot_sentinel.
  - split; [lia|].
    destruct (run_simulation_ok corn no_shock 10000 0 0 "no_hedge" 1)
      as (r & Hr & _ & _ & _ & _ & Hh);
      [lia|lia|simpl; tauto|right; discriminate|].
    exists r; split; [exact Hr|exact Hh].
Qed.

(** ** Sizes along a run *)

Lemma mapM_length {A B : Type} (f : A -> outcome B) (l : list A) (l' : list B) :
  mapM f l = Ok l' -> length l' = length l.
Proof.
  revert l'; induction l as [|x t IH]; intros l'; simpl.
  - intros H; injection H as <-; reflexivity.
  - destruct (f x) as [y| |]; simpl; try discriminate.
    destruct (mapM f t) as [ys| |]; simpl; try discriminate.
    intros H; injection H as <-; simpl; rewrite (IH ys eq_refl); reflexivity.
Qed.

(** The pay-off vector has one entry per scenario. *)
Lemma calculate_pnl_length (volume spot_price futures_price : R)
    (final_prices pnl : list R) (strategy : string) :
  calculate_pnl volume spot_price futures_price final_prices strategy = Ok pnl ->
  length pnl = length final_prices.
Proof.
  destruct (calculate_pnl_cases volume spot_price futures_price final_prices strategy)
    as [Hin | ->]; [|discriminate].
  each_strategy Hin.
  - rewrite calculate_pnl_no_hedge; intros H; injection H as <-; apply length_map.
  - rewrite calculate_pnl_full_hedge; intros H; injection H as <-; apply length_map.
  - rewrite calculate_pnl_partial_hedge; intros H; injection H as <-; apply length_map.
  - unfold calculate_pnl; simpl; apply mapM_length.
Qed.

(** In the result of a run both histograms have 50 counts and 51 edges, and
    the counts of each sum to the number of scenarios. *)
Lemma run_histograms_count_scenarios (self : CommoditySimulator) (rng : nat -> R)
    (volume spot_price : R) (time_horizon : Z) (strategy : string)
    (n_simulations : Z) (r : result.t) :
  run_simulation self rng volume spot_price time_horizon strategy n_simulations = Ok r ->
  length (counts (result.histogram r)) = 50%nat
  /\ length (bins (result.histogram r)) = 51%nat
  /\ list_sum (counts (result.histogram r)) = Z.to_nat n_simulations
  /\ length (counts (result.price_distribution r)) = 50%nat
  /\ length (bins (result.price_distribution r)) = 51%nat
  /\ list_sum (counts (result.price_distribution r)) = Z.to_nat n_simulations.
Proof.
  intros Hrun.
  destruct (run_simulation_ok_inv _ _ _ _ _ _ _ _ Hrun)
    as (final_prices & pnl & m & Hsim & Hpnl & Hne & _ & _ & _ & _ & -> & -> & _).
  pose proof (simulate_prices_length _ _ _ _ _ _ Hsim) as Hlen.
  pose proof (calculate_pnl_length _ _ _ _ _ _ Hpnl) as Hlen'.
  assert (Hpne : final_prices <> []).
  { intros ->; destruct pnl; [congruence|discriminate]. }
  destruct (histogram_fifty pnl Hne) as (h1 & e1 & -> & Hh1 & He1 & _ & _ & _ & Hs1 & _).
  destruct (histogram_fifty final_prices Hpne)
    as (h2 & e2 & -> & Hh2 & He2 & _ & _ & _ & Hs2 & _).
  simpl; repeat split; try assumption; congruence.
Qed.

(** * Further properties of the engine *)

(** ** Pay-offs *)

Lemma nth_error_map_some {A B : Type} (f : A -> B) (l : list A) (i : nat) (x : A) :
  nth_error l i = Some x -> nth_error (map f l) i = Some (f x).
Proof. intros H; rewrite nth_error_map, H; reflexivity. Qed.

Lemma dynamic_payoff_convex (volume futures_price p : R) :
  exists ratio,
    0 <= ratio <= 1
    /\ dynamic_payoff volume futures_price p
       = volume * (ratio * futures_price + (1 - ratio) * p).
Proof.
  unfold dynamic_payoff.
  exists (np.clip (0.5 + 0.5 * (futures_price - p) / futures_price) 0 1).
  split; [apply clip_unit|ring].
Qed.

(** The hedge ratio of the dynamic hedge, written with the relative fall
    [t = (futures_price - p) / futures_price] of the price. *)
Lemma dynamic_payoff_relative (volume futures_price p : R) :
  futures_price <> 0 ->
  let t := (futures_price - p) / futures_price in
  p = futures_price * (1 - t)
  /\ dynamic_payoff volume futures_price p
     = volume * futures_price * (1 - t + np.clip (0.5 + 0.5 * t) 0 1 * t).
Proof.
  intros HF t.
  assert (Hp : p = futures_price * (1 - t)) by (unfold t; field; exact HF).
  assert (Hc : 0.5 * (futures_price - p) / futures_price = 0.5 * t)
    by (unfold t; field; exact HF).
  split; [exact Hp|].
  unfold dynamic_payoff; rewrite Hc.
  clearbody t; subst p; ring.
Qed.

(** The pay-off of the dynamic hedge in one scenario lies between the
    unhedged pay-off and the fully hedged one (bounds included), whatever the
    sign of the volume. *)
Theorem dynamic_hedge_between (volume spot_price futures_price : R)
    (final_prices : list R) (i : nat) (p : R) :
  futures_price <> 0 ->
  nth_error final_prices i = Some p ->
  exists pnl v,
    calculate_pnl volume spot_price futures_price final_prices "dynamic_hedge" = Ok pnl
    /\ nth_error pnl i = Some v
    /\ Rmin (volume * p) (volume * futures_price) <= v
       <= Rmax (volume * p) (volume * futures_price).
Proof.
  intros HF Hp.
  rewrite calculate_pnl_dynamic_hedge by exact HF.
  do 2 eexists; split; [reflexivity|].
  split; [apply nth_error_map_some, Hp|].
  destruct (dynamic_payoff_convex volume futures_price p) as (r & Hr & ->).
  unfold Rmin, Rmax; destruct (Rle_dec (volume * p) (volume * futures_price)); nra.
Qed.

Lemma dynamic_hedge_between_witness :
  exists pnl v,
    calculate_pnl (-3) 4.5 4.5 [4; 5] "dynamic_hedge" = Ok pnl
    /\ nth_error pnl 1 = Some v
    /\ Rmin (-3 * 5) (-3 * 4.5) <= v <= Rmax (-3 * 5) (-3 * 4.5).
Proof.
  apply (dynamic_hedge_between (-3) 4.5 4.5 [4; 5] 1 5); [lra|reflexivity].
Defined.

(** With a positive futures price the dynamic hedge is the full hedge for a
    price at or below zero, the unhedged position for a price at or above
    twice the futures price, and in between pays
    [volume * (F - p/2 + p^2 / (2 F))]; with a volume that is not negative it
    never pays less than 7/8 of the fully hedged revenue. *)
Theorem dynamic_hedge_profile (volume spot_price futures_price : R)
    (final_prices : list R) (i : nat) (p : R) :
  0 < futures_price ->
  nth_error final_prices i = Some p ->
  exists pnl v,
    calculate_pnl volume spot_price futures_price final_prices "dynamic_hedge" = Ok pnl
    /\ nth_error pnl i = Some v
    /\ (p <= 0 -> v = volume * futures_price)
    /\ (2 * futures_price <= p -> v = volume * p)
    /\ (0 <= p <= 2 * futures_price ->
        v = volume * (futures_price - p / 2 + p * p / (2 * futures_price)))
    /\ (0 <= volume -> 7 / 8 * (volume * futures_price) <= v).
Proof.
  intros HF Hp.
  rewrite calculate_pnl_dynamic_hedge by lra.
  do 2 eexists; split; [reflexivity|].
  split; [apply nth_error_map_some, Hp|].
  destruct (dynamic_payoff_relative volume futures_price p ltac:(lra)) as [Hpt ->].
  set (t := (futures_price - p) / futures_price) in *.
  clearbody t; clear Hp; subst p.
  replace 0.5 with (1 / 2) by lra.
  assert (Hlow : futures_price * (1 - t) <= 0 -> 1 <= t) by (intros; nra).
  assert (Hhigh : 2 * futures_price <= futures_price * (1 - t) -> t <= -1)
    by (intros; nra).
  assert (Hmid : 0 <= futures_price * (1 - t) <= 2 * futures_price -> -1 <= t <= 1)
    by (intros; split; nra).
  assert (Hquad : volume * (futures_price - futures_price * (1 - t) / 2
                            + futures_price * (1 - t) * (futures_price * (1 - t))
                              / (2 * futures_price))
                  = volume * futures_price * (1 - t / 2 + t * t / 2))
    by (field; lra).
  rewrite Hquad; clear Hquad.
  assert (Hfloor : forall x, 0 <= volume -> 7 / 8 <= x ->
                     7 / 8 * (volume * futures_price) <= volume * futures_price * x).
  { intros x HV Hx. assert (0 <= volume * futures_price) by nra. nra. }
  unfold np.clip, Rmin, Rmax.
  destruct (Rle_dec (1 / 2 + 1 / 2 * t) 0) as [H0|H0];
    [destruct (Rle_dec 0 1) as [_|H1]; [|lra]
    |destruct (Rle_dec (1 / 2 + 1 / 2 * t) 1) as [H1|H1]].
  - (* ratio 0: the price is at least twice the futures price *)
    split; [intros H; apply Hlow in H; lra|].
    split; [intros _; ring|].
    split; [intros H; apply Hmid in H; replace t with (-1) by lra; field|].
    intros HV; apply Hfloor; [exact HV|lra].
  - (* ratio strictly between 0 and 1 *)
    split; [intros H; apply Hlow in H; replace t with 1 by lra; field|].
    split; [intros H; apply Hhigh in H; lra|].
    split; [intros _; field|].
    intros HV; apply Hfloor; [exact HV|].
    pose proof (Rle_0_sqr (t - 1 / 2)) as Hsq; unfold Rsqr in Hsq. lra.
  - (* ratio 1: the price is at most zero *)
    split; [intros _; ring|].
    split; [intros H; apply Hhigh in H; lra|].
    split; [intros H; apply Hmid in H; replace t with 1 by lra; field|].
    intros HV; apply Hfloor; [exact HV|lra].
Qed.

Lemma dynamic_hedge_profile_witness :
  exists pnl v,
    calculate_pnl 10000 4.5 4.5 [4; 5] "dynamic_hedge" = Ok pnl
    /\ nth_error pnl 0 = Some v
    /\ (4 <= 0 -> v = 10000 * 4.5)
    /\ (2 * 4.5 <= 4 -> v = 10000 * 4)
    /\ (0 <= 4 <= 2 * 4.5 -> v = 10000 * (4.5 - 4 / 2 + 4 * 4 / (2 * 4.5)))
    /\ (0 <= 10000 -> 7 / 8 * (10000 * 4.5) <= v).
Proof.
  apply (dynamic_hedge_profile 10000 4.5 4.5 [4; 5] 0 4); [lra|reflexivity].
Defined.

Lemma pnl_scales_with_volume_core (k volume spot_price futures_price : R)
    (final_prices pnl : list R) (strategy : string) :
  calculate_pnl volume spot_price futures_price final_prices strategy = Ok pnl ->
  calculate_pnl (k * volume) spot_price futures_price final_prices strategy
  = Ok (map (fun v => k * v) pnl).
Proof.
  destruct (calculate_pnl_cases volume spot_price futures_price final_prices strategy)
    as [Hin | ->]; [|discriminate].
  each_strategy Hin.
  - rewrite !calculate_pnl_no_hedge; intros H; injection H as <-.
    rewrite map_map; f_equal; apply map_ext; intros; ring.
  - rewrite !calculate_pnl_full_hedge; intros H; injection H as <-.
    rewrite map_map; f_equal; apply map_ext; intros; ring.
  - rewrite !calculate_pnl_partial_hedge; intros H; injection H as <-.
    rewrite map_map; f_equal; apply map_ext; intros; ring.
  - destruct (Req_dec_T futures_price 0) as [->|HF].
    + destruct final_prices as [|p t]; [intros H; injection H as <-; reflexivity|].
      unfold calculate_pnl; simpl; rewrite fdiv_zero; discriminate.
    + rewrite !calculate_pnl_dynamic_hedge by exact HF; intros H; injection H as <-.
      rewrite map_map; f_equal; apply map_ext; intros; unfold dynamic_payoff; ring.
Qed.

(** Pay-offs are proportional to the volume: multiplying the volume by [k]
    multiplies every entry of the pay-off vector by [k], for each strategy. *)
Theorem pnl_scales_with_volume (k volume spot_price futures_price : R)
    (final_prices pnl : list R) (strategy : string) :
  calculate_pnl volume spot_price futures_price final_prices strategy = Ok pnl ->
  calculate_pnl (k * volume) spot_price futures_price final_prices strategy
  = Ok (map (fun v => k * v) pnl).
Proof. apply pnl_scales_with_volume_core. Qed.

Lemma pnl_scales_with_volume_witness :
  calculate_pnl (2 * 10000) 4.5 4.5 [4; 5] "partial_hedge"
  = Ok (map (fun v => 2 * v)
          (map (fun p => 10000 * 0.5 * 4.5 + 10000 * (1 - 0.5) * p) [4; 5])).
Proof.
  apply (pnl_scales_with_volume 2 10000 4.5 4.5 [4; 5] _ "partial_hedge").
  reflexivity.
Defined.

(** A pay-off vector that is returned has one entry per terminal price. *)
Theorem pnl_one_entry_per_scenario (volume spot_price futures_price : R)
    (final_prices pnl : list R) (strategy : string) :
  calculate_pnl volume spot_price futures_price final_prices strategy = Ok pnl ->
  length pnl = length final_prices.
Proof. apply calculate_pnl_length. Qed.

Lemma pnl_one_entry_per_scenario_witness :
  length (map (dynamic_payoff 10000 4.5) [4; 5; 6]) = length [4; 5; 6].
Proof.
  apply (pnl_one_entry_per_scenario 10000 4.5 4.5 [4; 5; 6] _ "dynamic_hedge").
  apply calculate_pnl_dynamic_hedge; lra.
Defined.

(** ** Risk metrics *)

Lemma max_unique (a : list R) (x : R) :
  In x a -> (forall y, In y a -> y <= x) -> np.max a = x.
Proof.
  intros Hin Hub.
  assert (Hne : a <> []) by (intros ->; contradiction).
  pose proof (Hub _ (max_in a Hne)); pose proof (max_ge a x Hin); lra.
Qed.

Lemma min_unique (a : list R) (x : R) :
  In x a -> (forall y, In y a -> x <= y) -> np.min a = x.
Proof.
  intros Hin Hlb.
  assert (Hne : a <> []) by (intros ->; contradiction).
  pose proof (Hlb _ (min_in a Hne)); pose proof (min_le a x Hin); lra.
Qed.

Lemma sum_lower (c : R) (a : list R) :
  Forall (fun x => c <= x) a -> INR (length a) * c <= np.sum a.
Proof.
  induction 1 as [|x t Hx _ IH]; [simpl; lra|].
  change (np.sum (x :: t)) with (x + np.sum t).
  change (length (x :: t)) with (S (length t)); rewrite S_INR; lra.
Qed.

Lemma sum_upper (c : R) (a : list R) :
  Forall (fun x => x <= c) a -> np.sum a <= INR (length a) * c.
Proof.
  induction 1 as [|x t Hx _ IH]; [simpl; lra|].
  change (np.sum (x :: t)) with (x + np.sum t).
  change (length (x :: t)) with (S (length t)); rewrite S_INR; lra.
Qed.

Lemma mean_lower (c : R) (a : list R) :
  a <> [] -> Forall (fun x => c <= x) a -> c <= np.mean a.
Proof.
  intros Hne Hall; unfold np.mean.
  pose proof (INR_length_pos a Hne) as Hn; pose proof (sum_lower c a Hall).
  apply (Rmult_le_reg_r (INR (length a))); [exact Hn|].
  unfold Rdiv; rewrite Rmult_assoc, Rinv_l by lra. lra.
Qed.

Lemma mean_upper (c : R) (a : list R) :
  a <> [] -> Forall (fun x => x <= c) a -> np.mean a <= c.
Proof.
  intros Hne Hall; unfold np.mean.
  pose proof (INR_length_pos a Hne) as Hn; pose proof (sum_upper c a Hall).
  apply (Rmult_le_reg_r (INR (length a))); [exact Hn|].
  unfold Rdiv; rewrite Rmult_assoc, Rinv_l by lra. lra.
Qed.

Lemma within_range (a : list R) :
  Forall (fun x => np.min a <= x) a /\ Forall (fun x => x <= np.max a) a.
Proof.
  split; apply Forall_forall; intros x Hx; [apply min_le|apply max_ge]; exact Hx.
Qed.

Lemma tail_at_bounded (pnl : list R) (threshold : R) :
  Forall (fun x => np.min pnl <= x <= threshold) (tail_at pnl threshold).
Proof.
  apply Forall_forall; intros x Hx; unfold tail_at in Hx.
  apply filter_In in Hx; destruct Hx as [Hin Hle].
  split; [apply min_le, Hin|].
  destruct (Rle_dec x threshold); [assumption|discriminate].
Qed.

Lemma std_spread (a : list R) :
  a <> [] -> 0 <= np.std a <= np.max a - np.min a.
Proof.
  intros Hne; unfold np.std; split; [apply sqrt_pos|].
  destruct (within_range a) as [Hlo Hhi].
  pose proof (mean_lower _ a Hne Hlo) as Hm1.
  pose proof (mean_upper _ a Hne Hhi) as Hm2.
  set (m := np.mean a) in *; set (w := np.max a - np.min a).
  assert (Hw : 0 <= w) by (unfold w; lra).
  rewrite <- (sqrt_square w Hw).
  assert (Hsq : Forall (fun y => 0 <= y <= w * w) (map (fun x => (x - m) * (x - m)) a)).
  { apply Forall_map, Forall_forall; intros x Hx.
    rewrite Forall_forall in Hlo, Hhi.
    specialize (Hlo x Hx); specialize (Hhi x Hx).
    pose proof (Rle_0_sqr (x - m)) as H0; unfold Rsqr in H0.
    assert (H1 : 0 <= (w - (x - m)) * (w + (x - m)))
      by (apply Rmult_le_pos; unfold w; lra).
    split; lra. }
  assert (Hne' : map (fun x => (x - m) * (x - m)) a <> []).
  { intros E; apply map_eq_nil in E; contradiction. }
  apply sqrt_le_1.
  - apply mean_lower; [exact Hne'|].
    eapply Forall_impl; [|exact Hsq]; simpl; intros; lra.
  - nra.
  - apply mean_upper; [exact Hne'|].
    eapply Forall_impl; [|exact Hsq]; simpl; intros; lra.
Qed.



(** *** Maximum drawdown *)

Lemma calculate_risk_metrics_drawdown (pnl : list R) (m : metrics.t) :
  calculate_risk_metrics pnl = Ok m ->
  metrics.max_drawdown m = option_map (fun d => d * 100) (drawdown_fraction pnl).
Proof.
  destruct pnl; [discriminate|]; intros H; injection H as <-; reflexivity.
Qed.

Lemma sort_last_max (a : list R) :
  a <> [] -> nth (length a - 1) (np.sort a) 0 = np.max a.
Proof.
  intros Hne; symmetry; apply max_unique.
  - apply sorted_nth_in; destruct a; [congruence|simpl; lia].
  - intros y Hy.
    apply (Permutation_in _ (sort_perm a)) in Hy.
    destruct (In_nth _ _ 0 Hy) as (i & Hi & <-).
    rewrite sort_length in Hi.
    apply sorted_nth_le; [apply sort_sorted|rewrite sort_length; lia].
Qed.

Lemma descending_head (a : list R) :
  a <> [] ->
  exists t, rev (np.sort a) = np.max a :: t
            /\ Forall (fun x => np.min a <= x <= np.max a) (np.max a :: t)
            /\ In (np.min a) (np.max a :: t).
Proof.
  intros Hne.
  assert (Hperm : Permutation a (rev (np.sort a))).
  { etransitivity; [apply sort_perm|apply Permutation_rev]. }
  assert (Hhead : nth 0 (rev (np.sort a)) 0 = np.max a).
  { rewrite rev_nth by (rewrite sort_length; destruct a; [congruence|simpl; lia]).
    rewrite sort_length, <- sort_last_max by exact Hne.
    f_equal; lia. }
  destruct (rev (np.sort a)) as [|h t] eqn:E.
  - apply Permutation_sym, Permutation_nil in Hperm. contradiction.
  - simpl in Hhead; subst h. exists t; split; [reflexivity|]. split.
    + apply Forall_forall; intros x Hx.
      apply (Permutation_in _ (Permutation_sym Hperm)) in Hx.
      split; [apply min_le|apply max_ge]; exact Hx.
    + apply (Permutation_in _ Hperm), min_in, Hne.
Qed.

Lemma accumulate_from_const (m : R) (l : list R) :
  Forall (fun x => x <= m) l -> np.accumulate_from m l = map (fun _ => m) l.
Proof.
  induction 1 as [|x t Hx _ IH]; simpl; [reflexivity|].
  rewrite Rmax_left by exact Hx. rewrite IH; reflexivity.
Qed.

Lemma all_finite_quotients (m : R) (l : list R) :
  m <> 0 ->
  all_finite (map (fun cs : R * R => fdiv (fst cs - snd cs) (fst cs))
                  (map (fun s => (m, s)) l))
  = Some (map (fun s => (m - s) / m) l).
Proof.
  intros Hm; induction l as [|s t IH]; simpl; [reflexivity|].
  rewrite fdiv_some by exact Hm; rewrite IH; reflexivity.
Qed.

Lemma combine_const (m : R) (l : list R) :
  combine (map (fun _ => m) l) l = map (fun s => (m, s)) l.
Proof. induction l as [|s t IH]; simpl; [reflexivity|rewrite IH; reflexivity]. Qed.

(** The drawdown of the source in closed form: the running maximum of the
    descending sort is the maximum everywhere. *)
Lemma drawdown_fraction_closed (pnl : list R) :
  pnl <> [] ->
  (np.max pnl = 0 -> drawdown_fraction pnl = None)
  /\ (0 < np.max pnl ->
      drawdown_fraction pnl = Some ((np.max pnl - np.min pnl) / np.max pnl))
  /\ (np.max pnl < 0 -> drawdown_fraction pnl = Some 0).
Proof.
  intros Hne.
  destruct (descending_head pnl Hne) as (t & Hrev & Hrange & Hmin).
  assert (Hcum : np.maximum_accumulate (np.max pnl :: t)
                 = map (fun _ => np.max pnl) (np.max pnl :: t)).
  { simpl; f_equal; apply accumulate_from_const.
    inversion Hrange as [|? ? _ Ht]; subst.
    eapply Forall_impl; [|exact Ht]; simpl; intros; lra. }
  unfold drawdown_fraction; rewrite Hrev, Hcum, combine_const.
  set (M := np.max pnl) in *; set (d := M :: t) in *.
  assert (Hlen : (0 <? length (map (fun cs : R * R => fdiv (fst cs - snd cs) (fst cs))
                                   (map (fun s => (M, s)) d)))%nat = true)
    by reflexivity.
  rewrite Hlen; clear Hlen.
  split; [|split].
  - intros HM; unfold d; simpl; rewrite HM, fdiv_zero; reflexivity.
  - intros HM; rewrite all_finite_quotients by lra; cbn [option_map].
    f_equal; apply max_unique.
    + apply (in_map (fun s => (M - s) / M)), Hmin.
    + intros y Hy; apply in_map_iff in Hy; destruct Hy as (s & <- & Hs).
      rewrite Forall_forall in Hrange; specialize (Hrange s Hs).
      unfold Rdiv; apply Rmult_le_compat_r; [|lra].
      apply Rlt_le, Rinv_0_lt_compat, HM.
  - intros HM; rewrite all_finite_quotients by lra; cbn [option_map].
    f_equal; apply max_unique.
    + replace 0 with ((M - M) / M) by (field; lra).
      apply (in_map (fun s => (M - s) / M)); left; reflexivity.
    + intros y Hy; apply in_map_iff in Hy; destruct Hy as (s & <- & Hs).
      rewrite Forall_forall in Hrange; specialize (Hrange s Hs).
      assert (Hinv : / M < 0) by (apply Rinv_lt_0_compat, HM).
      unfold Rdiv; nra.
Qed.

(** The maximum drawdown of the source, computed over the descending sort of
    the vector, is [(max - min) / max] in percent when the maximum is
    positive, 0 when the maximum is negative, and not a number when the
    maximum is zero.  For a vector of positive entries it is a percentage in
    the interval from 0 (included) to 100 (excluded). *)
Theorem max_drawdown_closed_form (pnl : list R) :
  pnl <> [] ->
  exists m,
    calculate_risk_metrics pnl = Ok m
    /\ (0 < metrics.max m ->
        metrics.max_drawdown m
        = Some ((metrics.max m - metrics.min m) / metrics.max m * 100))
    /\ (metrics.max m < 0 -> metrics.max_drawdown m = Some 0)
    /\ (metrics.max m = 0 -> metrics.max_drawdown m = None)
    /\ (0 < metrics.min m ->
        exists d, metrics.max_drawdown m = Some d /\ 0 <= d < 100).
Proof.
  intros Hne.
  destruct (calculate_risk_metrics_nonempty pnl Hne)
    as (m & Hm & _ & _ & Hmn & Hmx & _).
  exists m; split; [exact Hm|].
  rewrite (calculate_risk_metrics_drawdown pnl m Hm), Hmn, Hmx.
  destruct (drawdown_fraction_closed pnl Hne) as (Hzero & Hpos & Hneg).
  pose proof (min_le_max pnl Hne) as Hmm.
  split; [intros H; rewrite (Hpos H); reflexivity|].
  split; [intros H; rewrite (Hneg H); simpl; f_equal; lra|].
  split; [intros H; rewrite (Hzero H); reflexivity|].
  intros H; rewrite Hpos by lra; simpl.
  eexists; split; [reflexivity|].
  assert (HM : 0 < np.max pnl) by lra.
  assert (Hq : 0 <= (np.max pnl - np.min pnl) / np.max pnl < 1).
  { split.
    - apply Rmult_le_pos; [lra|apply Rlt_le, Rinv_0_lt_compat, HM].
    - apply (Rmult_lt_reg_r (np.max pnl)); [exact HM|].
      unfold Rdiv; rewrite Rmult_assoc, Rinv_l by lra. lra. }
  lra.
Qed.

Lemma max_drawdown_closed_form_witness :
  exists m,
    calculate_risk_metrics [3; 1; 2] = Ok m
    /\ (0 < metrics.max m ->
        metrics.max_drawdown m
        = Some ((metrics.max m - metrics.min m) / metrics.max m * 100))
    /\ (metrics.max m < 0 -> metrics.max_drawdown m = Some 0)
    /\ (metrics.max m = 0 -> metrics.max_drawdown m = None)
    /\ (0 < metrics.min m ->
        exists d, metrics.max_drawdown m = Some d /\ 0 <= d < 100).
Proof.
  apply (max_drawdown_closed_form [3; 1; 2]); discriminate.
Defined.

(** *** Constant vectors *)

Lemma sum_nonneg_zero (a : list R) :
  Forall (fun x => 0 <= x) a -> np.sum a = 0 -> Forall (fun x => x = 0) a.
Proof.
  induction 1 as [|x t Hx Ht IH]; intros Hsum; [constructor|].
  change (np.sum (x :: t)) with (x + np.sum t) in Hsum.
  pose proof (sum_lower 0 t Ht) as Hlow; rewrite Rmult_0_r in Hlow.
  constructor; [lra|apply IH; lra].
Qed.

Lemma std_zero_constant (a : list R) :
  a <> [] -> np.std a = 0 -> Forall (fun x => x = np.mean a) a.
Proof.
  intros Hne Hstd; unfold np.std in Hstd.
  set (m := np.mean a) in *.
  set (sq := map (fun x => (x - m) * (x - m)) a) in *.
  assert (Hsq : Forall (fun y => 0 <= y) sq).
  { apply Forall_map, Forall_forall; intros x _.
    pose proof (Rle_0_sqr (x - m)) as H; unfold Rsqr in H; exact H. }
  assert (Hne' : sq <> []) by (intros E; apply map_eq_nil in E; contradiction).
  apply sqrt_eq_0 in Hstd; [|apply mean_lower; assumption].
  unfold np.mean in Hstd.
  pose proof (INR_length_pos sq Hne') as Hn.
  assert (Hsum : np.sum sq = 0).
  { apply (Rmult_eq_reg_r (/ INR (length sq))); [|apply Rinv_neq_0_compat; lra].
    unfold Rdiv in Hstd; lra. }
  pose proof (sum_nonneg_zero sq Hsq Hsum) as Hall.
  unfold sq in Hall; rewrite Forall_map in Hall.
  eapply Forall_impl; [|exact Hall]; simpl; intros x Hx.
  assert (Hx' : Rsqr (x - m) = 0) by exact Hx.
  apply Rsqr_0_uniq in Hx'; lra.
Qed.

Lemma constant_extremes (c : R) (a : list R) :
  a <> [] -> Forall (fun x => x = c) a -> np.min a = c /\ np.max a = c.
Proof.
  intros Hne Hall; rewrite Forall_forall in Hall.
  split; [apply Hall, min_in, Hne|apply Hall, max_in, Hne].
Qed.

Lemma constant_percentile (c q : R) (a : list R) :
  a <> [] -> Forall (fun x => x = c) a -> 0 <= q -> np.percentile a q = c.
Proof.
  intros Hne Hall Hq.
  destruct (constant_extremes c a Hne Hall) as [Hmin Hmax].
  pose proof (percentile_ge_min a Hne q Hq); pose proof (percentile_le_max a Hne q Hq).
  lra.
Qed.

Lemma constant_metrics (c : R) (pnl : list R) :
  pnl <> [] -> Forall (fun x => x = c) pnl ->
  exists m,
    calculate_risk_metrics pnl = Ok m
    /\ metrics.min m = c /\ metrics.max m = c
    /\ metrics.var_95 m = c /\ metrics.es_95 m = Some (metrics.mean m)
    /\ metrics.percentile_5 m = c /\ metrics.percentile_25 m = c
    /\ metrics.percentile_50 m = c /\ metrics.percentile_75 m = c
    /\ metrics.percentile_95 m = c
    /\ (c <> 0 -> metrics.max_drawdown m = Some 0)
    /\ (c = 0 -> metrics.max_drawdown m = None).
Proof.
  intros Hne Hall.
  destruct (calculate_risk_metrics_nonempty pnl Hne)
    as (m & Hm & Hmean & _ & Hmn & Hmx & Hvar & Hes & _
          & H5 & H25 & H50 & H75 & H95).
  destruct (constant_extremes c pnl Hne Hall) as [Hmin Hmax].
  assert (Hp : forall q, 0 <= q -> np.percentile pnl q = c)
    by (intros; apply constant_percentile; assumption).
  exists m; split; [exact Hm|].
  rewrite Hmean, Hmn, Hmx, Hvar, Hes, H5, H25, H50, H75, H95.
  rewrite (calculate_risk_metrics_drawdown pnl m Hm).
  rewrite !Hp by lra. rewrite Hmin, Hmax.
  repeat (split; [reflexivity|]).
  split.
  { replace (tail_at pnl c) with pnl.
    - destruct pnl; [congruence|reflexivity].
    - symmetry; apply filter_all.
      eapply Forall_impl; [|exact Hall]; simpl; intros x ->.
      destruct (Rle_dec c c); [reflexivity|lra]. }
  repeat (split; [reflexivity|]).
  destruct (drawdown_fraction_closed pnl Hne) as (Hzero & Hpos & Hneg).
  rewrite Hmin, Hmax in *.
  split.
  - intros Hc; destruct (Rlt_dec 0 c) as [Hlt|Hge].
    + rewrite (Hpos Hlt); simpl; f_equal; field; lra.
    + rewrite Hneg by lra; simpl; f_equal; lra.
  - intros Hc; rewrite (Hzero Hc); reflexivity.
Qed.

(** The metrics of a vector whose entries are all the same number (such as
    the pay-offs of a full hedge): minimum, maximum, value at risk and the
    five percentiles are that number; the expected shortfall averages the
    whole vector, so it is the reported mean; and the maximum drawdown is 0,
    except for the zero vector, where it is not a number. *)
Theorem constant_vector_metrics (c : R) (pnl : list R) :
  pnl <> [] -> Forall (fun x => x = c) pnl ->
  exists m,
    calculate_risk_metrics pnl = Ok m
    /\ metrics.min m = c /\ metrics.max m = c
    /\ metrics.var_95 m = c /\ metrics.es_95 m = Some (metrics.mean m)
    /\ metrics.percentile_5 m = c /\ metrics.percentile_25 m = c
    /\ metrics.percentile_50 m = c /\ metrics.percentile_75 m = c
    /\ metrics.percentile_95 m = c
    /\ (c <> 0 -> metrics.max_drawdown m = Some 0)
    /\ (c = 0 -> metrics.max_drawdown m = None).
Proof. exact (constant_metrics c pnl). Qed.

Lemma constant_vector_metrics_witness :
  exists m,
    calculate_risk_metrics [45000; 45000; 45000] = Ok m
    /\ metrics.min m = 45000 /\ metrics.max m = 45000
    /\ metrics.var_95 m = 45000 /\ metrics.es_95 m = Some (metrics.mean m)
    /\ metrics.percentile_5 m = 45000 /\ metrics.percentile_25 m = 45000
    /\ metrics.percentile_50 m = 45000 /\ metrics.percentile_75 m = 45000
    /\ metrics.percentile_95 m = 45000
    /\ (45000 <> 0 -> metrics.max_drawdown m = Some 0)
    /\ (45000 = 0 -> metrics.max_drawdown m = None).
Proof.
  apply (constant_vector_metrics 45000 [45000; 45000; 45000]).
  - discriminate.
  - repeat constructor.
Defined.

Lemma spread_positive_std (pnl : list R) :
  (exists x y, In x pnl /\ In y pnl /\ x <> y) -> 0 < np.std pnl.
Proof.
  intros (x & y & Hx & Hy & Hxy).
  assert (Hne : pnl <> []) by (intros ->; contradiction).
  destruct (std_spread pnl Hne) as [Hge _].
  destruct (Req_dec_T (np.std pnl) 0) as [Hz|Hnz]; [|lra].
  exfalso; apply Hxy.
  pose proof (std_zero_constant pnl Hne Hz) as Hall.
  rewrite Forall_forall in Hall.
  rewrite (Hall x Hx), (Hall y Hy); reflexivity.
Qed.

Lemma sharpe_zero_flat (mean_pnl std_pnl : R) :
  0 <= std_pnl -> sharpe mean_pnl std_pnl = Some 0 -> std_pnl = 0.
Proof.
  intros Hge Hs.
  destruct (Rlt_dec 0 std_pnl) as [Hpos|Hnpos]; [|lra].
  exfalso; destruct (Req_dec_T mean_pnl 0) as [Hz|Hnz].
  - rewrite Hz, sharpe_zero_mean in Hs by exact Hpos; discriminate.
  - rewrite sharpe_regular in Hs by assumption.
    injection Hs as Hs.
    assert (Heq : (mean_pnl / mean_pnl - 0.03) / (std_pnl / mean_pnl)
                  = (1 - 0.03) * mean_pnl / std_pnl) by (field; lra).
    rewrite Heq in Hs.
    assert (Hprod : (1 - 0.03) * mean_pnl = 0).
    { apply (Rmult_eq_reg_r (/ std_pnl)); [|apply Rinv_neq_0_compat; lra].
      unfold Rdiv in Hs; lra. }
    lra.
Qed.

(** A reported standard deviation of 0 and a reported Sharpe ratio of 0 each
    occur only when all pay-offs are the same number: pay-offs with any
    spread have a positive deviation and a Sharpe ratio that is not 0. *)
Theorem zero_sharpe_only_if_constant (pnl : list R) :
  pnl <> [] ->
  exists m,
    calculate_risk_metrics pnl = Ok m
    /\ (metrics.std m = 0 -> exists c, Forall (fun x => x = c) pnl)
    /\ (metrics.sharpe_ratio m = Some 0 -> exists c, Forall (fun x => x = c) pnl)
    /\ ((exists x y, In x pnl /\ In y pnl /\ x <> y) ->
        0 < metrics.std m /\ metrics.sharpe_ratio m <> Some 0).
Proof.
  intros Hne.
  destruct (calculate_risk_metrics_nonempty pnl Hne)
    as (m & Hm & _ & Hstd & _ & _ & _ & _ & Hsh & _).
  exists m; split; [exact Hm|].
  rewrite Hstd, Hsh.
  destruct (std_spread pnl Hne) as [Hge _].
  assert (Hflat : np.std pnl = 0 -> exists c, Forall (fun x => x = c) pnl).
  { intros H; exists (np.mean pnl); apply std_zero_constant; assumption. }
  split; [exact Hflat|].
  split.
  - intros Hs; apply Hflat, (sharpe_zero_flat (np.mean pnl)); assumption.
  - intros Hdiff; pose proof (spread_positive_std pnl Hdiff) as Hpos.
    split; [exact Hpos|].
    intros Hs; apply (sharpe_zero_flat (np.mean pnl)) in Hs; lra.
Qed.

Lemma zero_sharpe_only_if_constant_witness :
  exists m,
    calculate_risk_metrics [1; 3] = Ok m
    /\ (metrics.std m = 0 -> exists c, Forall (fun x => x = c) [1; 3])
    /\ (metrics.sharpe_ratio m = Some 0 -> exists c, Forall (fun x => x = c) [1; 3])
    /\ ((exists x y, In x [1; 3] /\ In y [1; 3] /\ x <> y) ->
        0 < metrics.std m /\ metrics.sharpe_ratio m <> Some 0).
Proof.
  apply (zero_sharpe_only_if_constant [1; 3]); discriminate.
Defined.

(** *** Independence of the order of the scenarios *)

Lemma sum_perm (a b : list R) : Permutation a b -> np.sum a = np.sum b.
Proof.
  induction 1 as [|x l l' _ IH|x y l|l l' l'' _ IH1 _ IH2]; simpl; lra.
Qed.

Lemma mean_perm (a b : list R) : Permutation a b -> np.mean a = np.mean b.
Proof.
  intros H; unfold np.mean.
  rewrite (sum_perm a b H), (Permutation_length H); reflexivity.
Qed.

Lemma std_perm (a b : list R) : Permutation a b -> np.std a = np.std b.
Proof.
  intros H; unfold np.std; rewrite (mean_perm a b H).
  f_equal; apply mean_perm, Permutation_map, H.
Qed.

Lemma sorted_unique (l1 l2 : list R) :
  StronglySorted Rle l1 -> StronglySorted Rle l2 -> Permutation l1 l2 -> l1 = l2.
Proof.
  revert l2; induction l1 as [|x t1 IH]; intros l2 H1 H2 Hperm.
  - apply Permutation_nil in Hperm; subst; reflexivity.
  - destruct l2 as [|y t2];
      [apply Permutation_sym, Permutation_nil in Hperm; discriminate|].
    apply StronglySorted_inv in H1, H2.
    destruct H1 as [Hs1 Hall1]; destruct H2 as [Hs2 Hall2].
    rewrite Forall_forall in Hall1, Hall2.
    assert (Hxy : x = y).
    { assert (Hy : In y (x :: t1))
        by (apply (Permutation_in _ (Permutation_sym Hperm)); left; reflexivity).
      assert (Hx : In x (y :: t2))
        by (apply (Permutation_in _ Hperm); left; reflexivity).
      destruct Hy as [Hy|Hy]; [congruence|].
      destruct Hx as [Hx|Hx]; [congruence|].
      pose proof (Hall1 y Hy); pose proof (Hall2 x Hx); lra. }
    subst y; f_equal; apply IH; try assumption.
    eapply Permutation_cons_inv; exact Hperm.
Qed.

Lemma sort_perm_eq (a b : list R) : Permutation a b -> np.sort a = np.sort b.
Proof.
  intros H; apply sorted_unique; try apply sort_sorted.
  rewrite <- (sort_perm a), <- (sort_perm b); exact H.
Qed.

Lemma percentile_perm (a b : list R) (q : R) :
  Permutation a b -> np.percentile a q = np.percentile b q.
Proof. intros H; unfold np.percentile; rewrite (sort_perm_eq a b H); reflexivity. Qed.

Lemma min_perm (a b : list R) : Permutation a b -> np.min a = np.min b.
Proof.
  intros H; destruct a as [|x t].
  - apply Permutation_nil in H; subst; reflexivity.
  - apply min_unique.
    + apply (Permutation_in _ (Permutation_sym H)), min_in.
      intros ->; apply Permutation_sym, Permutation_nil in H; discriminate.
    + intros y Hy; apply min_le, (Permutation_in _ H), Hy.
Qed.

Lemma max_perm (a b : list R) : Permutation a b -> np.max a = np.max b.
Proof.
  intros H; destruct a as [|x t].
  - apply Permutation_nil in H; subst; reflexivity.
  - apply max_unique.
    + apply (Permutation_in _ (Permutation_sym H)), max_in.
      intros ->; apply Permutation_sym, Permutation_nil in H; discriminate.
    + intros y Hy; apply max_ge, (Permutation_in _ H), Hy.
Qed.

Lemma filter_perm {A : Type} (f : A -> bool) (a b : list A) :
  Permutation a b -> Permutation (filter f a) (filter f b).
Proof.
  induction 1 as [|x l l' _ IH|x y l|l l' l'' _ IH1 _ IH2]; simpl.
  - constructor.
  - destruct (f x); [apply perm_skip|]; exact IH.
  - destruct (f x), (f y); try reflexivity. apply perm_swap.
  - etransitivity; eassumption.
Qed.

Lemma mean_or_nan_perm (a b : list R) :
  Permutation a b -> np.mean_or_nan a = np.mean_or_nan b.
Proof.
  intros H; destruct a as [|x t], b as [|y u]; simpl.
  - reflexivity.
  - apply Permutation_nil in H; discriminate.
  - apply Permutation_sym, Permutation_nil in H; discriminate.
  - f_equal; apply mean_perm, H.
Qed.

Lemma drawdown_fraction_perm (a b : list R) :
  Permutation a b -> drawdown_fraction a = drawdown_fraction b.
Proof.
  intros H; unfold drawdown_fraction; rewrite (sort_perm_eq a b H); reflexivity.
Qed.

(** The risk metrics do not depend on the order of the scenarios: two
    vectors with the same entries in a different order have the same
    metrics (and an empty vector raises in both orders). *)
Theorem metrics_order_independent (pnl pnl' : list R) :
  Permutation pnl pnl' ->
  calculate_risk_metrics pnl = calculate_risk_metrics pnl'.
Proof.
  intros H.
  destruct pnl as [|x t].
  { apply Permutation_nil in H; subst; reflexivity. }
  destruct pnl' as [|y u].
  { apply Permutation_sym, Permutation_nil in H; discriminate. }
  unfold calculate_risk_metrics.
  rewrite !(percentile_perm _ _ _ H).
  rewrite (mean_perm _ _ H), (std_perm _ _ H), (min_perm _ _ H), (max_perm _ _ H).
  rewrite (drawdown_fraction_perm _ _ H).
  rewrite (mean_or_nan_perm _ _ (filter_perm _ _ _ H)).
  reflexivity.
Qed.

Lemma metrics_order_independent_witness :
  calculate_risk_metrics [3; 1; 2] = calculate_risk_metrics [1; 2; 3].
Proof.
  apply (metrics_order_independent [3; 1; 2] [1; 2; 3]).
  apply Permutation_sym.
  apply (perm_trans (l' := [1; 3; 2])); [|apply perm_swap].
  apply perm_skip, perm_swap.
Defined.

(** ** Terminal prices *)

Lemma nth_error_draws (rng : nat -> R) (n i : nat) :
  (i < n)%nat -> nth_error (map rng (seq 0 n)) i = Some (rng i).
Proof.
  intros Hi; rewrite nth_error_map.
  rewrite (nth_error_nth' _ 0%nat) by (rewrite length_seq; exact Hi).
  rewrite seq_nth by exact Hi; reflexivity.
Qed.

Lemma terminal_price_pos (self : CommoditySimulator) (spot_price : R)
    (time_horizon : Z) (z_i : R) :
  0 < spot_price -> 0 < terminal_price self spot_price time_horizon z_i.
Proof. intros Hs; unfold terminal_price; apply Rmult_lt_0_compat; [exact Hs|apply exp_pos]. Qed.

Lemma exp_le (x y : R) : x <= y -> exp x <= exp y.
Proof.
  intros [Hlt | ->]; [apply Rlt_le, exp_increasing, Hlt|lra].
Qed.

Lemma terminal_price_monotone (self : CommoditySimulator) (spot_price : R)
    (time_horizon : Z) (z1 z2 : R) :
  0 <= volatility self -> 0 <= spot_price -> z1 <= z2 ->
  terminal_price self spot_price time_horizon z1
  <= terminal_price self spot_price time_horizon z2.
Proof.
  intros Hv Hs Hz; unfold terminal_price.
  apply Rmult_le_compat_l; [exact Hs|].
  apply exp_le.
  pose proof (sqrt_pos (IZR time_horizon / 12)) as Hsq.
  assert (0 <= volatility self * sqrt (IZR time_horizon / 12))
    by (apply Rmult_le_pos; assumption).
  nra.
Qed.

(** For a positive spot price, a horizon that is not negative and a number
    of scenarios that is not negative, [simulate_prices] returns exactly
    [n_simulations] prices, all strictly positive, the [i]-th price being
    the geometric-Brownian-motion value of the [i]-th variate. *)
Theorem simulated_prices_positive (self : CommoditySimulator) (rng : nat -> R)
    (spot_price : R) (time_horizon n_simulations : Z) :
  0 < spot_price -> (0 <= time_horizon)%Z -> (0 <= n_simulations)%Z ->
  exists prices,
    simulate_prices self rng spot_price time_horizon n_simulations = Ok prices
    /\ length prices = Z.to_nat n_simulations
    /\ Forall (fun p => 0 < p) prices
    /\ forall i, (i < Z.to_nat n_simulations)%nat ->
         nth_error prices i
         = Some (spot_price
                 * exp ((0.02 - 0.5 * volatility self ^ 2) * (IZR time_horizon / 12)
                        + volatility self * sqrt (IZR time_horizon / 12) * rng i)).
Proof.
  intros Hs Hh Hn.
  rewrite simulate_prices_ok by assumption.
  eexists; split; [reflexivity|].
  split; [rewrite !length_map, length_seq; reflexivity|].
  split.
  - apply Forall_map, Forall_forall; intros z _; apply terminal_price_pos, Hs.
  - intros i Hi.
    apply (nth_error_map_some (terminal_price self spot_price time_horizon)).
    apply nth_error_draws, Hi.
Qed.

Lemma simulated_prices_positive_witness :
  exists prices,
    simulate_prices corn no_shock 4.5 6 3 = Ok prices
    /\ length prices = Z.to_nat 3
    /\ Forall (fun p => 0 < p) prices
    /\ forall i, (i < Z.to_nat 3)%nat ->
         nth_error prices i
         = Some (4.5 * exp ((0.02 - 0.5 * volatility corn ^ 2) * (IZR 6 / 12)
                            + volatility corn * sqrt (IZR 6 / 12) * no_shock i)).
Proof.
  apply (simulated_prices_positive corn no_shock 4.5 6 3); [lra|lia|lia].
Defined.

(** Prices follow the variates: with a volatility and a spot price that are
    not negative, a scenario with a larger variate has a terminal price at
    least as large. *)
Theorem prices_follow_variates (self : CommoditySimulator) (rng : nat -> R)
    (spot_price : R) (time_horizon n_simulations : Z) (prices : list R)
    (i j : nat) (p_i p_j : R) :
  0 <= volatility self -> 0 <= spot_price ->
  simulate_prices self rng spot_price time_horizon n_simulations = Ok prices ->
  nth_error prices i = Some p_i -> nth_error prices j = Some p_j ->
  rng i <= rng j -> p_i <= p_j.
Proof.
  intros Hv Hs Hsim Hi Hj Hz.
  pose proof (simulate_prices_length _ _ _ _ _ _ Hsim) as Hlen.
  assert (Hil : (i < length prices)%nat) by (apply nth_error_Some; congruence).
  assert (Hjl : (j < length prices)%nat) by (apply nth_error_Some; congruence).
  destruct (Z.ltb_spec time_horizon 0) as [Hneg|Hh].
  { rewrite simulate_prices_negative_horizon in Hsim by lia; discriminate. }
  assert (Hin : (i < Z.to_nat n_simulations)%nat) by lia.
  assert (Hjn : (j < Z.to_nat n_simulations)%nat) by lia.
  rewrite simulate_prices_ok in Hsim by lia; injection Hsim as <-.
  rewrite (nth_error_map_some _ _ _ _ (nth_error_draws rng _ i Hin)) in Hi.
  rewrite (nth_error_map_some _ _ _ _ (nth_error_draws rng _ j Hjn)) in Hj.
  injection Hi as <-; injection Hj as <-.
  apply terminal_price_monotone; assumption.
Qed.

Lemma prices_follow_variates_witness :
  terminal_price corn 4.5 6 (INR 0) <= terminal_price corn 4.5 6 (INR 2).
Proof.
  apply (prices_follow_variates corn INR 4.5 6 3
           (map (terminal_price corn 4.5 6) (map INR (seq 0 (Z.to_nat 3)))) 0 2).
  - simpl; lra.
  - lra.
  - apply simulate_prices_ok; lia.
  - reflexivity.
  - reflexivity.
  - simpl; lra.
Defined.

(** ** Whole runs *)

Lemma calculate_pnl_positive (volume spot_price futures_price : R)
    (final_prices pnl : list R) (strategy : string) :
  0 < volume -> 0 < futures_price ->
  Forall (fun p => 0 < p) final_prices ->
  calculate_pnl volume spot_price futures_price final_prices strategy = Ok pnl ->
  Forall (fun v => 0 < v) pnl.
Proof.
  intros HV HF Hpos.
  destruct (calculate_pnl_cases volume spot_price futures_price final_prices strategy)
    as [Hin | ->]; [|discriminate].
  each_strategy Hin.
  - rewrite calculate_pnl_no_hedge; intros H; injection H as <-.
    apply Forall_map; eapply Forall_impl; [|exact Hpos]; simpl; intros; nra.
  - rewrite calculate_pnl_full_hedge; intros H; injection H as <-.
    apply Forall_map; eapply Forall_impl; [|exact Hpos]; simpl; intros; nra.
  - rewrite calculate_pnl_partial_hedge; intros H; injection H as <-.
    apply Forall_map; eapply Forall_impl; [|exact Hpos]; simpl; intros; nra.
  - rewrite calculate_pnl_dynamic_hedge by lra; intros H; injection H as <-.
    apply Forall_map; eapply Forall_impl; [|exact Hpos]; simpl; intros.
    apply dynamic_payoff_pos; assumption.
Qed.

Lemma positive_metrics (pnl : list R) (m : metrics.t) :
  Forall (fun v => 0 < v) pnl ->
  calculate_risk_metrics pnl = Ok m ->
  0 < metrics.min m
  /\ 0 < metrics.mean m
  /\ exists es ratio drawdown,
      metrics.es_95 m = Some es /\ 0 < es
      /\ metrics.sharpe_ratio m = Some ratio /\ 0 <= ratio
      /\ metrics.max_drawdown m = Some drawdown /\ 0 <= drawdown < 100.
Proof.
  intros Hpos Hm.
  assert (Hne : pnl <> []) by (intros ->; discriminate Hm).
  destruct (calculate_risk_metrics_nonempty pnl Hne)
    as (m' & Hm' & Hmean & Hstd & Hmn & Hmx & Hvar & Hes & Hsh & _).
  rewrite Hm in Hm'; injection Hm' as <-.
  rewrite Forall_forall in Hpos.
  assert (Hmin : 0 < np.min pnl) by (apply Hpos, min_in, Hne).
  assert (Hmpos : 0 < np.mean pnl) by (apply mean_pos; [|apply Forall_forall]; assumption).
  rewrite Hmn, Hmean, Hes, Hsh, (calculate_risk_metrics_drawdown pnl m Hm).
  split; [exact Hmin|]. split; [exact Hmpos|].
  (* expected shortfall *)
  assert (Hp5 : np.min pnl <= np.percentile pnl 5)
    by (apply percentile_ge_min; [exact Hne|lra]).
  pose proof (tail_nonempty pnl _ Hne Hp5) as Htail.
  pose proof (tail_at_bounded pnl (np.percentile pnl 5)) as Hb.
  assert (Hesv : np.min pnl <= np.mean (tail_at pnl (np.percentile pnl 5))).
  { apply mean_lower; [exact Htail|].
    eapply Forall_impl; [|exact Hb]; simpl; intros; lra. }
  (* drawdown *)
  destruct (drawdown_fraction_closed pnl Hne) as (_ & Hdd & _).
  pose proof (min_le_max pnl Hne) as Hmm.
  assert (HM : 0 < np.max pnl) by lra.
  assert (Hq : 0 <= (np.max pnl - np.min pnl) / np.max pnl < 1).
  { split.
    - apply Rmult_le_pos; [lra|apply Rlt_le, Rinv_0_lt_compat, HM].
    - apply (Rmult_lt_reg_r (np.max pnl)); [exact HM|].
      unfold Rdiv; rewrite Rmult_assoc, Rinv_l by lra. lra. }
  (* Sharpe ratio *)
  assert (Hratio : exists ratio,
            sharpe (np.mean pnl) (np.std pnl) = Some ratio /\ 0 <= ratio).
  { destruct (Rlt_dec 0 (np.std pnl)) as [Hs|Hs].
    - rewrite sharpe_regular by lra. eexists; split; [reflexivity|].
      replace ((np.mean pnl / np.mean pnl - 0.03) / (np.std pnl / np.mean pnl))
        with ((1 - 0.03) * np.mean pnl * / np.std pnl) by (field; lra).
      apply Rmult_le_pos; [nra|apply Rlt_le, Rinv_0_lt_compat, Hs].
    - unfold sharpe; destruct (Rlt_dec 0 (np.std pnl)); [contradiction|].
      exists 0; split; [reflexivity|lra]. }
  destruct Hratio as (ratio & Hr & Hr0).
  exists (np.mean (tail_at pnl (np.percentile pnl 5))), ratio,
    ((np.max pnl - np.min pnl) / np.max pnl * 100).
  split; [destruct (tail_at pnl (np.percentile pnl 5)); [congruence|reflexivity]|].
  split; [lra|]. split; [exact Hr|]. split; [exact Hr0|].
  split; [rewrite (Hdd HM); reflexivity|lra].
Qed.

(** The result of a run whose prices and pay-offs are known. *)
Lemma run_simulation_with (self : CommoditySimulator) (rng : nat -> R)
    (volume spot_price : R) (time_horizon : Z) (strategy : string)
    (n_simulations : Z) (prices pnl : list R) :
  simulate_prices self rng (resolved_spot self spot_price) time_horizon n_simulations
  = Ok prices ->
  calculate_pnl volume (resolved_spot self spot_price) (resolved_spot self spot_price)
    prices strategy = Ok pnl ->
  pnl <> [] ->
  exists r m,
    run_simulation self rng volume spot_price time_horizon strategy n_simulations = Ok r
    /\ calculate_risk_metrics pnl = Ok m
    /\ result.metrics r = m
    /\ result.sample_scenarios r
       = {| best_case := np.max pnl; worst_case := np.min pnl; median := np.median pnl |}.
Proof.
  intros Hsim Hpnl Hne.
  destruct (calculate_risk_metrics_nonempty pnl Hne) as (m & Hm & _).
  unfold run_simulation; fold (resolved_spot self spot_price).
  rewrite Hsim; simpl; rewrite Hpnl; simpl; rewrite Hm; simpl.
  destruct (np.histogram pnl 50), (np.histogram prices 50).
  eexists; exists m; split; [reflexivity|]. simpl. repeat split; assumption.
Qed.

Lemma draws_nonempty (rng : nat -> R) (f : R -> R) (n : Z) :
  (0 < n)%Z -> map f (map rng (seq 0 (Z.to_nat n))) <> [].
Proof. intros Hn; destruct (Z.to_nat n) eqn:E; [lia|discriminate]. Qed.

Lemma valid_request_finite (self : CommoditySimulator) (rng : nat -> R)
    (volume spot_price : R) (time_horizon : Z) (strategy : string)
    (n_simulations : Z) :
  0 < volume -> 0 < resolved_spot self spot_price ->
  (0 <= time_horizon)%Z -> (0 < n_simulations)%Z ->
  In strategy known_strategies ->
  exists r,
    run_simulation self rng volume spot_price time_horizon strategy n_simulations = Ok r
    /\ 0 < worst_case (result.sample_scenarios r)
    /\ 0 < metrics.min (result.metrics r)
    /\ 0 < metrics.mean (result.metrics r)
    /\ exists es ratio drawdown,
        metrics.es_95 (result.metrics r) = Some es /\ 0 < es
        /\ metrics.sharpe_ratio (result.metrics r) = Some ratio /\ 0 <= ratio
        /\ metrics.max_drawdown (result.metrics r) = Some drawdown
        /\ 0 <= drawdown < 100.
Proof.
  intros HV HS Hh Hn Hin.
  pose proof (simulate_prices_ok self rng (resolved_spot self spot_price)
                time_horizon n_simulations ltac:(lia) Hh) as Hsim.
  set (prices := map _ (map rng _)) in Hsim.
  assert (Hppos : Forall (fun p => 0 < p) prices).
  { apply Forall_map, Forall_forall; intros z _; apply terminal_price_pos, HS. }
  destruct (calculate_pnl_known volume (resolved_spot self spot_price)
              (resolved_spot self spot_price) prices strategy Hin ltac:(lra))
    as (pnl & Hpnl & Hlen).
  assert (Hne : pnl <> []).
  { intros ->. pose proof (draws_nonempty rng
      (terminal_price self (resolved_spot self spot_price) time_horizon)
      n_simulations Hn) as Hd.
    fold prices in Hd. destruct prices; [congruence|discriminate]. }
  destruct (run_simulation_with _ _ _ _ _ _ _ _ _ Hsim Hpnl Hne)
    as (r & m & Hr & Hm & Hrm & Hss).
  exists r; split; [exact Hr|].
  pose proof (calculate_pnl_positive _ _ _ _ _ _ HV HS Hppos Hpnl) as Hpos.
  destruct (positive_metrics pnl m Hpos Hm) as (Hmin & Hmean & Hrest).
  rewrite Hss, Hrm; simpl.
  split; [|repeat split; assumption].
  destruct (calculate_risk_metrics_nonempty pnl Hne) as (m' & Hm' & _ & _ & Hmn & _).
  rewrite Hm in Hm'; injection Hm' as <-. rewrite <- Hmn; exact Hmin.
Qed.

(** A request with a positive volume, a positive (resolved) spot price, a
    horizon that is not negative, at least one scenario and a recognised
    strategy returns a result all of whose metrics are finite numbers: the
    worst case and the mean are positive, the expected shortfall is a
    positive number, the Sharpe ratio is a number that is not negative, and
    the maximum drawdown is a percentage from 0 (included) to 100
    (excluded). *)
Theorem valid_request_finite_metrics (self : CommoditySimulator) (rng : nat -> R)
    (volume spot_price : R) (time_horizon : Z) (strategy : string)
    (n_simulations : Z) :
  0 < volume -> 0 < resolved_spot self spot_price ->
  (0 <= time_horizon)%Z -> (0 < n_simulations)%Z ->
  In strategy known_strategies ->
  exists r,
    run_simulation self rng volume spot_price time_horizon strategy n_simulations = Ok r
    /\ 0 < worst_case (result.sample_scenarios r)
    /\ 0 < metrics.min (result.metrics r)
    /\ 0 < metrics.mean (result.metrics r)
    /\ exists es ratio drawdown,
        metrics.es_95 (result.metrics r) = Some es /\ 0 < es
        /\ metrics.sharpe_ratio (result.metrics r) = Some ratio /\ 0 <= ratio
        /\ metrics.max_drawdown (result.metrics r) = Some drawdown
        /\ 0 <= drawdown < 100.
Proof. apply valid_request_finite. Qed.

Lemma valid_request_finite_metrics_witness :
  exists r,
    run_simulation corn no_shock 10000 0 6 "dynamic_hedge" 100 = Ok r
    /\ 0 < worst_case (result.sample_scenarios r)
    /\ 0 < metrics.min (result.metrics r)
    /\ 0 < metrics.mean (result.metrics r)
    /\ exists es ratio drawdown,
        metrics.es_95 (result.metrics r) = Some es /\ 0 < es
        /\ metrics.sharpe_ratio (result.metrics r) = Some ratio /\ 0 <= ratio
        /\ metrics.max_drawdown (result.metrics r) = Some drawdown
        /\ 0 <= drawdown < 100.
Proof.
  apply (valid_request_finite_metrics corn no_shock 10000 0 6 "dynamic_hedge" 100).
  - lra.
  - rewrite resolved_spot_sentinel; simpl; lra.
  - lia.
  - lia.
  - simpl; tauto.
Defined.

(** The strategy is looked at only after the prices have been drawn: an
    unrecognised strategy makes the run raise the "Unknown strategy" error
    whenever the price simulation itself goes through, while a negative
    number of scenarios raises inside the simulation first. *)
Theorem unknown_strategy_run (self : CommoditySimulator) (rng : nat -> R)
    (volume spot_price : R) (time_horizon : Z) (strategy : string)
    (n_simulations : Z) :
  ~ In strategy known_strategies ->
  ((0 <= n_simulations)%Z -> (0 <= time_horizon)%Z \/ n_simulations = 0%Z ->
   run_simulation self rng volume spot_price time_horizon strategy n_simulations
   = Raise (ValueError ("Unknown strategy: " ++ strategy)))
  /\ ((n_simulations < 0)%Z ->
      run_simulation self rng volume spot_price time_horizon strategy n_simulations
      = Raise NumpyError).
Proof.
  intros Hnot; split.
  - intros Hn Hh; unfold run_simulation; fold (resolved_spot self spot_price).
    assert (Hsim : exists prices,
              simulate_prices self rng (resolved_spot self spot_price)
                time_horizon n_simulations = Ok prices).
    { destruct Hh as [Hh | ->].
      - rewrite simulate_prices_ok by assumption; eexists; reflexivity.
      - rewrite simulate_prices_empty; eexists; reflexivity. }
    destruct Hsim as (prices & ->); simpl.
    destruct (calculate_pnl_cases volume (resolved_spot self spot_price)
                (resolved_spot self spot_price) prices strategy) as [Hin | ->];
      [contradiction|reflexivity].
  - intros Hn; unfold run_simulation.
    rewrite simulate_prices_negative_count by exact Hn; reflexivity.
Qed.

Lemma unknown_strategy_run_witness :
  run_simulation corn no_shock 10000 0 6 "foo_hedge" 1000
  = Raise (ValueError "Unknown strategy: foo_hedge").
Proof.
  apply (unknown_strategy_run corn no_shock 10000 0 6 "foo_hedge" 1000).
  - simpl; intros [H|[H|[H|[H|[]]]]]; discriminate H.
  - lia.
  - left; lia.
Defined.

Lemma constant_run (self : CommoditySimulator) (rng : nat -> R)
    (volume spot_price : R) (time_horizon : Z) (strategy : string)
    (n_simulations : Z) (prices pnl : list R) (c : R) :
  simulate_prices self rng (resolved_spot self spot_price) time_horizon n_simulations
  = Ok prices ->
  calculate_pnl volume (resolved_spot self spot_price) (resolved_spot self spot_price)
    prices strategy = Ok pnl ->
  pnl <> [] -> Forall (fun v => v = c) pnl ->
  exists r,
    run_simulation self rng volume spot_price time_horizon strategy n_simulations = Ok r
    /\ metrics.min (result.metrics r) = c
    /\ metrics.max (result.metrics r) = c
    /\ metrics.var_95 (result.metrics r) = c
    /\ metrics.percentile_50 (result.metrics r) = c
    /\ metrics.es_95 (result.metrics r) = Some (metrics.mean (result.metrics r))
    /\ best_case (result.sample_scenarios r) = c
    /\ worst_case (result.sample_scenarios r) = c
    /\ median (result.sample_scenarios r) = c.
Proof.
  intros Hsim Hpnl Hne Hall.
  destruct (run_simulation_with _ _ _ _ _ _ _ _ _ Hsim Hpnl Hne)
    as (r & m & Hr & Hm & Hrm & Hss).
  destruct (constant_metrics c pnl Hne Hall)
    as (m' & Hm' & Hmn & Hmx & Hvar & Hes & _ & _ & H50 & _).
  rewrite Hm in Hm'; injection Hm' as <-.
  destruct (constant_extremes c pnl Hne Hall) as [Hmin Hmax].
  exists r; split; [exact Hr|].
  rewrite Hrm, Hss; simpl.
  rewrite median_percentile, (constant_percentile c 50 pnl) by (assumption || lra).
  repeat split; assumption.
Qed.

(** A full hedge makes every pay-off the same number: whatever the draws,
    the volatility and the sign of the volume, a run with at least one
    scenario and a horizon that is not negative returns minimum, maximum,
    value at risk, 50th percentile, best case, worst case and median all
    equal to [volume * spot price], and an expected shortfall equal to the
    reported mean. *)
Theorem full_hedge_run (self : CommoditySimulator) (rng : nat -> R)
    (volume spot_price : R) (time_horizon n_simulations : Z) :
  (0 <= time_horizon)%Z -> (0 < n_simulations)%Z ->
  exists r,
    run_simulation self rng volume spot_price time_horizon "full_hedge" n_simulations
    = Ok r
    /\ metrics.min (result.metrics r) = volume * resolved_spot self spot_price
    /\ metrics.max (result.metrics r) = volume * resolved_spot self spot_price
    /\ metrics.var_95 (result.metrics r) = volume * resolved_spot self spot_price
    /\ metrics.percentile_50 (result.metrics r) = volume * resolved_spot self spot_price
    /\ metrics.es_95 (result.metrics r) = Some (metrics.mean (result.metrics r))
    /\ best_case (result.sample_scenarios r) = volume * resolved_spot self spot_price
    /\ worst_case (result.sample_scenarios r) = volume * resolved_spot self spot_price
    /\ median (result.sample_scenarios r) = volume * resolved_spot self spot_price.
Proof.
  intros Hh Hn.
  pose proof (simulate_prices_ok self rng (resolved_spot self spot_price)
                time_horizon n_simulations ltac:(lia) Hh) as Hsim.
  eapply constant_run; [exact Hsim|apply calculate_pnl_full_hedge| |].
  - intros E; apply map_eq_nil in E; revert E; apply draws_nonempty, Hn.
  - apply Forall_map, Forall_forall; intros; reflexivity.
Qed.

Lemma full_hedge_run_witness :
  exists r,
    run_simulation corn no_shock 10000 4.5 6 "full_hedge" 1000 = Ok r
    /\ metrics.min (result.metrics r) = 10000 * resolved_spot corn 4.5
    /\ metrics.max (result.metrics r) = 10000 * resolved_spot corn 4.5
    /\ metrics.var_95 (result.metrics r) = 10000 * resolved_spot corn 4.5
    /\ metrics.percentile_50 (result.metrics r) = 10000 * resolved_spot corn 4.5
    /\ metrics.es_95 (result.metrics r) = Some (metrics.mean (result.metrics r))
    /\ best_case (result.sample_scenarios r) = 10000 * resolved_spot corn 4.5
    /\ worst_case (result.sample_scenarios r) = 10000 * resolved_spot corn 4.5
    /\ median (result.sample_scenarios r) = 10000 * resolved_spot corn 4.5.
Proof.
  apply (full_hedge_run corn no_shock 10000 4.5 6 1000); lia.
Defined.

Lemma terminal_price_now (self : CommoditySimulator) (spot_price z_i : R) :
  terminal_price self spot_price 0 z_i = spot_price.
Proof.
  unfold terminal_price.
  replace (IZR 0 / 12) with 0 by lra.
  rewrite sqrt_0, !Rmult_0_r, Rmult_0_l, Rplus_0_l, exp_0; ring.
Qed.

Lemma dynamic_payoff_at_par (volume futures_price : R) :
  futures_price <> 0 ->
  dynamic_payoff volume futures_price futures_price = volume * futures_price.
Proof.
  intros HF; unfold dynamic_payoff.
  replace (0.5 * (futures_price - futures_price) / futures_price) with 0
    by (unfold Rdiv; rewrite Rminus_diag, Rmult_0_r, Rmult_0_l; reflexivity).
  unfold np.clip, Rmin, Rmax.
  destruct (Rle_dec (0.5 + 0) 0); [lra|].
  destruct (Rle_dec (0.5 + 0) 1); lra.
Qed.

(** With a horizon of zero months every terminal price is the spot price, and
    every recognised strategy then gives the pay-offs of the full hedge: all
    equal [volume * spot price], and so are minimum, maximum, value at risk,
    50th percentile, best case, worst case and median, while the expected
    shortfall is the reported mean. *)
Theorem zero_horizon_run (self : CommoditySimulator) (rng : nat -> R)
    (volume spot_price : R) (strategy : string) (n_simulations : Z) :
  (0 < n_simulations)%Z ->
  In strategy known_strategies ->
  resolved_spot self spot_price <> 0 ->
  exists r,
    run_simulation self rng volume spot_price 0 strategy n_simulations = Ok r
    /\ metrics.min (result.metrics r) = volume * resolved_spot self spot_price
    /\ metrics.max (result.metrics r) = volume * resolved_spot self spot_price
    /\ metrics.var_95 (result.metrics r) = volume * resolved_spot self spot_price
    /\ metrics.percentile_50 (result.metrics r) = volume * resolved_spot self spot_price
    /\ metrics.es_95 (result.metrics r) = Some (metrics.mean (result.metrics r))
    /\ best_case (result.sample_scenarios r) = volume * resolved_spot self spot_price
    /\ worst_case (result.sample_scenarios r) = volume * resolved_spot self spot_price
    /\ median (result.sample_scenarios r) = volume * resolved_spot self spot_price.
Proof.
  intros Hn Hin HS.
  set (s := resolved_spot self spot_price) in *.
  pose proof (simulate_prices_ok self rng s 0 n_simulations ltac:(lia) ltac:(lia))
    as Hsim.
  set (prices := map _ (map rng _)) in Hsim.
  assert (Hprices : Forall (fun p => p = s) prices).
  { apply Forall_map, Forall_forall; intros z _; apply terminal_price_now. }
  assert (Hpne : prices <> []) by (apply draws_nonempty, Hn).
  assert (Hmapne : forall f : R -> R, map f prices <> []).
  { intros f E; apply map_eq_nil in E; contradiction. }
  assert (Hmap : forall f : R -> R, f s = volume * s ->
                   Forall (fun v => v = volume * s) (map f prices)).
  { intros f Hf; apply Forall_map.
    eapply Forall_impl; [|exact Hprices]; simpl; intros p ->; exact Hf. }
  each_strategy Hin.
  - eapply constant_run; [exact Hsim|apply calculate_pnl_no_hedge|apply Hmapne|].
    apply Hmap; reflexivity.
  - eapply constant_run; [exact Hsim|apply calculate_pnl_full_hedge|apply Hmapne|].
    apply Hmap; reflexivity.
  - eapply constant_run; [exact Hsim|apply calculate_pnl_partial_hedge|apply Hmapne|].
    apply Hmap; cbv beta; unfold s; lra.
  - eapply constant_run;
      [exact Hsim|apply calculate_pnl_dynamic_hedge; exact HS|apply Hmapne|].
    apply Hmap, dynamic_payoff_at_par, HS.
Qed.

Lemma zero_horizon_run_witness :
  exists r,
    run_simulation corn no_shock 10000 4.5 0 "dynamic_hedge" 50 = Ok r
    /\ metrics.min (result.metrics r) = 10000 * resolved_spot corn 4.5
    /\ metrics.max (result.metrics r) = 10000 * resolved_spot corn 4.5
    /\ metrics.var_95 (result.metrics r) = 10000 * resolved_spot corn 4.5
    /\ metrics.percentile_50 (result.metrics r) = 10000 * resolved_spot corn 4.5
    /\ metrics.es_95 (result.metrics r) = Some (metrics.mean (result.metrics r))
    /\ best_case (result.sample_scenarios r) = 10000 * resolved_spot corn 4.5
    /\ worst_case (result.sample_scenarios r) = 10000 * resolved_spot corn 4.5
    /\ median (result.sample_scenarios r) = 10000 * resolved_spot corn 4.5.
Proof.
  apply (zero_horizon_run corn no_shock 10000 4.5 "dynamic_hedge" 50).
  - lia.
  - simpl; tauto.
  - rewrite resolved_spot_given by lra; lra.
Defined.

(** In the result of a run both histograms (pay-offs and prices) have 50
    counts and 51 edges, and the counts of each sum to the number of
    scenarios. *)
Theorem run_histograms_cover_scenarios (self : CommoditySimulator) (rng : nat -> R)
    (volume spot_price : R) (time_horizon : Z) (strategy : string)
    (n_simulations : Z) (r : result.t) :
  run_simulation self rng volume spot_price time_horizon strategy n_simulations = Ok r ->
  length (counts (result.histogram r)) = 50%nat
  /\ length (bins (result.histogram r)) = 51%nat
  /\ list_sum (counts (result.histogram r)) = Z.to_nat n_simulations
  /\ length (counts (result.price_distribution r)) = 50%nat
  /\ length (bins (result.price_distribution r)) = 51%nat
  /\ list_sum (counts (result.price_distribution r)) = Z.to_nat n_simulations.
Proof. apply run_histograms_count_scenarios. Qed.

Lemma run_histograms_cover_scenarios_witness :
  exists r,
    run_simulation corn no_shock 10000 0 6 "no_hedge" 1000 = Ok r
    /\ length (counts (result.histogram r)) = 50%nat
    /\ length (bins (result.histogram r)) = 51%nat
    /\ list_sum (counts (result.histogram r)) = Z.to_nat 1000
    /\ length (counts (result.price_distribution r)) = 50%nat
    /\ length (bins (result.price_distribution r)) = 51%nat
    /\ list_sum (counts (result.price_distribution r)) = Z.to_nat 1000.
Proof.
  destruct (run_simulation_ok corn no_shock 10000 0 6 "no_hedge" 1000)
    as (r & Hr & _); [lia|lia|simpl; tauto|right; discriminate|].
  exists r; split; [exact Hr|].
  exact (run_histograms_cover_scenarios corn no_shock 10000 0 6 "no_hedge" 1000 r Hr).
Defined.

(** ** The strategy catalogue *)

(** The catalogue and the pay-off dispatch agree: the identifiers the
    catalogue lists are pairwise distinct, each of them is computed by
    [calculate_pnl] (for a futures price that is not zero), and every other
    identifier makes [calculate_pnl] raise. *)
Theorem catalogue_matches_dispatch (strategy : string) :
  NoDup (map fst HedgingStrategy.get_strategy_info)
  /\ (In strategy (map fst HedgingStrategy.get_strategy_info) ->
      forall volume spot_price futures_price final_prices,
        futures_price <> 0 ->
        exists pnl,
          calculate_pnl volume spot_price futures_price final_prices strategy = Ok pnl)
  /\ (~ In strategy (map fst HedgingStrategy.get_strategy_info) ->
      forall volume spot_price futures_price final_prices,
        calculate_pnl volume spot_price futures_price final_prices strategy
        = Raise (ValueError ("Unknown strategy: " ++ strategy))).
Proof.
  change (map fst HedgingStrategy.get_strategy_info) with known_strategies.
  split; [|split].
  - unfold known_strategies.
    repeat (apply NoDup_cons; [simpl; intuition discriminate|]).
    apply NoDup_nil.
  - intros Hin volume spot_price futures_price final_prices HF.
    destruct (calculate_pnl_known volume spot_price futures_price final_prices
                strategy Hin HF) as (pnl & Hpnl & _).
    exists pnl; exact Hpnl.
  - intros Hnot volume spot_price futures_price final_prices.
    destruct (calculate_pnl_cases volume spot_price futures_price final_prices strategy)
      as [Hin|Hraise]; [contradiction|exact Hraise].
Qed.

(** * The data loader *)

Section Loader.
Import DataLoader.

Lemma lookup_in {V : Type} (key : string) (d : list (string * V)) (v : V) :
  lookup key d = Some v -> In (key, v) d.
Proof.
  induction d as [|[k w] rest IH]; simpl; [discriminate|].
  destruct (String.eqb_spec key k) as [->|_].
  - intros H; injection H as ->; left; reflexivity.
  - intros H; right; apply IH, H.
Qed.

Lemma lookup_keys {V : Type} (key : string) (d : list (string * V)) :
  In key (map fst d) <-> exists v, lookup key d = Some v.
Proof.
  induction d as [|[k w] rest IH]; simpl.
  - split; [contradiction|intros [v H]; discriminate].
  - destruct (String.eqb_spec key k) as [->|Hne].
    + split; [intros _; exists w; reflexivity|intros _; left; reflexivity].
    + rewrite <- IH; split; [intros [H|H]; [congruence|exact H]|intros H; right; exact H].
Qed.

Lemma lookup_missing {V : Type} (key : string) (d : list (string * V)) :
  ~ In key (map fst d) -> lookup key d = None.
Proof.
  intros Hnot; destruct (lookup key d) as [v|] eqn:E; [|reflexivity].
  exfalso; apply Hnot, lookup_keys; exists v; exact E.
Qed.

(** The generated data has the keys of the commodity dictionary, each with
    the series of its own parameters. *)
Lemma lookup_generate (key : string) (items : list (string * params))
    (rng : nat -> R) (offset : nat) :
  match lookup key items with
  | None => lookup key (generate items rng offset) = None
  | Some p =>
      exists offset', lookup key (generate items rng offset)
                      = Some (price_series p rng offset')
  end.
Proof.
  revert offset; induction items as [|[k p] rest IH]; intros offset; simpl.
  - reflexivity.
  - destruct (String.eqb key k); [exists offset; reflexivity|apply IH].
Qed.

(** The date range of the source counts 5479 days. *)
Lemma n_days_eq : n_days = Z.to_nat 5479.
Proof. vm_compute; reflexivity. Qed.

Lemma n_days_value : (252 < n_days)%nat /\ (0 < n_days)%nat.
Proof. rewrite n_days_eq; lia. Qed.

Lemma cumsum_from_length (acc : R) (a : list R) :
  length (cumsum_from acc a) = length a.
Proof.
  revert acc; induction a as [|x t IH]; intros acc; simpl;
    [reflexivity|rewrite IH; reflexivity].
Qed.

Lemma daily_returns_length (p : params) (rng : nat -> R) (offset : nat) :
  length (daily_returns p rng offset) = n_days.
Proof. unfold daily_returns; rewrite length_map, length_seq; reflexivity. Qed.

Lemma price_series_length (p : params) (rng : nat -> R) (offset : nat) :
  length (price_series p rng offset) = n_days.
Proof.
  unfold price_series, cumsum.
  rewrite length_map, cumsum_from_length; apply daily_returns_length.
Qed.

Lemma price_series_pos (p : params) (rng : nat -> R) (offset : nat) :
  0 < base_price p -> Forall (fun x => 0 < x) (price_series p rng offset).
Proof.
  intros Hb; unfold price_series; apply Forall_map, Forall_forall; intros c _.
  apply Rmult_lt_0_compat; [exact Hb|apply exp_pos].
Qed.

Lemma default_base_prices (key : string) (p : params) :
  lookup key default_commodities = Some p -> 0 < base_price p.
Proof.
  unfold default_commodities, lookup.
  repeat match goal with
  | |- context [String.eqb key ?k] =>
      destruct (String.eqb key k);
      [intros H; injection H as <-; simpl; lra|]
  end.
  discriminate.
Qed.

Lemma iloc_last_in {A : Type} (series : list A) :
  series <> [] -> exists x, iloc_last series = inr x /\ In x series.
Proof.
  intros Hne; unfold iloc_last.
  destruct (rev series) as [|x t] eqn:E.
  - apply (f_equal (@rev A)) in E; rewrite rev_involutive in E; contradiction.
  - exists x; split; [reflexivity|].
    apply in_rev; rewrite E; left; reflexivity.
Qed.

(** *** Log returns of a generated series *)

Lemma log_ratio_exp (base a y : R) :
  base <> 0 -> log_ratio (base * exp a) (base * exp (a + y)) = Some y.
Proof.
  intros Hb; unfold log_ratio.
  pose proof (exp_pos a) as Ha.
  rewrite fdiv_some by (apply Rmult_integral_contrapositive_currified; lra).
  replace (base * exp (a + y) / (base * exp a)) with (exp y)
    by (rewrite exp_plus; field; lra).
  pose proof (exp_pos y).
  destruct (Rlt_dec 0 (exp y)); [rewrite ln_exp; reflexivity|contradiction].
Qed.

Lemma log_ratios_cumsum (base acc x : R) (t : list R) :
  base <> 0 ->
  map (fun pc : R * R => log_ratio (fst pc) (snd pc))
      (combine (map (fun c => base * exp c) (cumsum_from acc (x :: t)))
               (map (fun c => base * exp c) (cumsum_from (acc + x) t)))
  = map Some t.
Proof.
  intros Hb; revert acc x; induction t as [|y t IH]; intros acc x; [reflexivity|].
  change (cumsum_from acc (x :: y :: t))
    with ((acc + x) :: cumsum_from (acc + x) (y :: t)).
  change (cumsum_from (acc + x) (y :: t))
    with ((acc + x + y) :: cumsum_from (acc + x + y) t) at 2.
  cbn [map combine fst snd].
  rewrite log_ratio_exp by exact Hb. f_equal. apply IH.
Qed.

(** Taking logarithms of successive price quotients gives back the returns
    the series was built from. *)
Lemma log_returns_generated (base : R) (returns : list R) :
  base <> 0 ->
  log_returns (map (fun c => base * exp c) (cumsum returns))
  = match returns with
    | [] => []
    | _ :: t => None :: map Some t
    end.
Proof.
  intros Hb; destruct returns as [|x t]; [reflexivity|].
  unfold log_returns, cumsum.
  change (cumsum_from 0 (x :: t)) with ((0 + x) :: cumsum_from (0 + x) t) at 1.
  cbn [map]. f_equal.
  change ((base * exp (0 + x)) :: map (fun c => base * exp c) (cumsum_from (0 + x) t))
    with (map (fun c => base * exp c) (cumsum_from 0 (x :: t))).
  apply log_ratios_cumsum, Hb.
Qed.

Lemma all_finite_some (a : list R) : all_finite (map Some a) = Some a.
Proof. induction a as [|x t IH]; simpl; [reflexivity|rewrite IH; reflexivity]. Qed.

Lemma last_window_tail {A : Type} (window : nat) (x : A) (t : list A) :
  (window <= length t)%nat -> last_window window (x :: t) = last_window window t.
Proof.
  intros Hw; unfold last_window; simpl length.
  replace (S (length t) - window)%nat with (S (length t - window)) by lia.
  apply skipn_cons.
Qed.

Lemma rolling_std_generated (window : nat) (x : R) (t : list R) :
  (2 <= window <= length t)%nat ->
  rolling_std_last window (None :: map Some t)
  = Some (sample_std (last_window window (x :: t))).
Proof.
  intros [H2 Hw]; unfold rolling_std_last.
  destruct (Nat.ltb_spec window 2); [lia|].
  simpl length; rewrite length_map.
  destruct (Nat.ltb_spec (S (length t)) window); [lia|].
  rewrite (last_window_tail window None) by (rewrite length_map; exact Hw).
  rewrite (last_window_tail window x) by exact Hw.
  unfold last_window; rewrite length_map, skipn_map, all_finite_some.
  reflexivity.
Qed.

End Loader.

Lemma loaded_series (rng : nat -> R) (code : string) (p : DataLoader.params) :
  DataLoader.lookup code DataLoader.default_commodities = Some p ->
  exists offset,
    DataLoader.lookup code (DataLoader.historical_data (DataLoader.init rng))
    = Some (DataLoader.price_series p rng offset).
Proof.
  intros Hp; unfold DataLoader.init, DataLoader._generate_historical_data; simpl.
  pose proof (lookup_generate code DataLoader.default_commodities rng 0) as H.
  rewrite Hp in H; exact H.
Qed.

Lemma loaded_prices (rng : nat -> R) (code : string) :
  In code (map fst DataLoader.default_commodities) ->
  exists series price,
    DataLoader.get_historical_prices (DataLoader.init rng) code = inr series
    /\ length series = DataLoader.n_days
    /\ Forall (fun p => 0 < p) series
    /\ DataLoader.get_current_price (DataLoader.init rng) code = inr price
    /\ In price series
    /\ 0 < price.
Proof.
  intros Hin; apply lookup_keys in Hin; destruct Hin as [p Hp].
  destruct (loaded_series rng code p Hp) as [offset Hs].
  pose proof (price_series_pos p rng offset (default_base_prices code p Hp)) as Hpos.
  pose proof (price_series_length p rng offset) as Hlen.
  assert (Hne : DataLoader.price_series p rng offset <> []).
  { intros E; rewrite E in Hlen; cbn [length] in Hlen.
    pose proof n_days_value; lia. }
  destruct (iloc_last_in _ Hne) as (price & Hlast & Hin).
  exists (DataLoader.price_series p rng offset), price.
  unfold DataLoader.get_historical_prices, DataLoader.get_current_price; rewrite Hs.
  repeat (split; [assumption || reflexivity|]).
  rewrite Forall_forall in Hpos; apply Hpos, Hin.
Qed.

Lemma iloc_last_spec {A : Type} (series : list A) (x : A) :
  DataLoader.iloc_last series = inr x -> exists earlier, series = earlier ++ [x].
Proof.
  unfold DataLoader.iloc_last; destruct (rev series) as [|y t] eqn:E; [discriminate|].
  intros H; injection H as ->.
  exists (rev t).
  rewrite <- (rev_involutive series), E; reflexivity.
Qed.

(** Every series the loader generates for one of its commodities has one
    price per day of the date range from 2010-01-01 to 2024-12-31 (5479
    days), all strictly positive; the current price is the last price of the
    series and is therefore positive. *)
Theorem loaded_prices_positive (rng : nat -> R) (code : string) :
  In code (map fst DataLoader.default_commodities) ->
  exists series earlier price,
    DataLoader.get_historical_prices (DataLoader.init rng) code = inr series
    /\ length series = length (DataLoader.date_range DataLoader.start_date
                                 DataLoader.end_date)
    /\ length series = Z.to_nat 5479
    /\ Forall (fun p => 0 < p) series
    /\ DataLoader.get_current_price (DataLoader.init rng) code = inr price
    /\ series = earlier ++ [price]
    /\ 0 < price.
Proof.
  intros Hin.
  destruct (loaded_prices rng code Hin)
    as (series & price & Hhist & Hlen & Hpos & Hcur & _ & Hprice).
  assert (Hlast : exists earlier, series = earlier ++ [price]).
  { apply iloc_last_spec.
    unfold DataLoader.get_historical_prices in Hhist.
    unfold DataLoader.get_current_price in Hcur.
    destruct (DataLoader.lookup code
                (DataLoader.historical_data (DataLoader.init rng))) as [s|];
      [|discriminate Hhist].
    injection Hhist as ->; exact Hcur. }
  destruct Hlast as [earlier Hlast].
  exists series, earlier, price.
  split; [exact Hhist|]. split; [exact Hlen|].
  split; [rewrite Hlen; apply n_days_eq|].
  repeat (split; [assumption|]). exact Hprice.
Qed.

Lemma loaded_prices_positive_witness :
  exists series earlier price,
    DataLoader.get_historical_prices (DataLoader.init no_shock) "WHEAT" = inr series
    /\ length series = length (DataLoader.date_range DataLoader.start_date
                                 DataLoader.end_date)
    /\ length series = Z.to_nat 5479
    /\ Forall (fun p => 0 < p) series
    /\ DataLoader.get_current_price (DataLoader.init no_shock) "WHEAT" = inr price
    /\ series = earlier ++ [price]
    /\ 0 < price.
Proof.
  apply (loaded_prices_positive no_shock "WHEAT"); simpl; tauto.
Defined.

(** A commodity code the loader does not know is reported in two different
    ways: [get_historical_prices] raises a ValueError with a message, while
    [get_current_price], [get_volatility] and the constructor of the
    simulator raise the KeyError of the dictionary access. *)
Theorem missing_commodity_errors (rng : nat -> R) (code : string) (window : nat) :
  ~ In code (map fst DataLoader.default_commodities) ->
  DataLoader.get_historical_prices (DataLoader.init rng) code
  = inl (DataLoader.ValueError ("Commodity " ++ code ++ " not found"))
  /\ DataLoader.get_current_price (DataLoader.init rng) code
     = inl (DataLoader.KeyError code)
  /\ DataLoader.get_volatility (DataLoader.init rng) code window
     = inl (DataLoader.KeyError code)
  /\ simulator_init code (DataLoader.init rng) = inl (DataLoader.KeyError code).
Proof.
  intros Hnot.
  assert (Hnone : DataLoader.lookup code
                    (DataLoader.historical_data (DataLoader.init rng)) = None).
  { unfold DataLoader.init, DataLoader._generate_historical_data; simpl.
    pose proof (lookup_generate code DataLoader.default_commodities rng 0) as H.
    rewrite (lookup_missing code _ Hnot) in H; exact H. }
  unfold simulator_init, DataLoader.get_historical_prices,
    DataLoader.get_current_price, DataLoader.get_volatility.
  rewrite Hnone; repeat split; reflexivity.
Qed.

Lemma missing_commodity_errors_witness :
  DataLoader.get_historical_prices (DataLoader.init no_shock) "GOLD"
  = inl (DataLoader.ValueError "Commodity GOLD not found")
  /\ DataLoader.get_current_price (DataLoader.init no_shock) "GOLD"
     = inl (DataLoader.KeyError "GOLD")
  /\ DataLoader.get_volatility (DataLoader.init no_shock) "GOLD" 252
     = inl (DataLoader.KeyError "GOLD")
  /\ simulator_init "GOLD" (DataLoader.init no_shock) = inl (DataLoader.KeyError "GOLD").
Proof.
  apply (missing_commodity_errors no_shock "GOLD" 252).
  simpl; intuition discriminate.
Defined.

Lemma loaded_volatility (rng : nat -> R) (code : string) (p : DataLoader.params) :
  DataLoader.lookup code DataLoader.default_commodities = Some p ->
  exists offset vol,
    DataLoader.get_historical_prices (DataLoader.init rng) code
    = inr (DataLoader.price_series p rng offset)
    /\ DataLoader.log_returns (DataLoader.price_series p rng offset)
       = None :: map Some (tl (DataLoader.daily_returns p rng offset))
    /\ DataLoader.get_volatility (DataLoader.init rng) code 252 = inr (Some vol)
    /\ vol = DataLoader.sample_std
               (DataLoader.last_window 252 (DataLoader.daily_returns p rng offset))
             * sqrt 252
    /\ 0 <= vol.
Proof.
  intros Hp.
  destruct (loaded_series rng code p Hp) as [offset Hs].
  pose proof (default_base_prices code p Hp) as Hb.
  pose proof (daily_returns_length p rng offset) as Hlen.
  pose proof n_days_value as [H252 _].
  exists offset,
    (DataLoader.sample_std
       (DataLoader.last_window 252 (DataLoader.daily_returns p rng offset))
     * sqrt 252).
  unfold DataLoader.get_historical_prices, DataLoader.get_volatility; rewrite Hs.
  split; [reflexivity|].
  unfold DataLoader.price_series.
  rewrite log_returns_generated by lra.
  destruct (DataLoader.daily_returns p rng offset) as [|x t] eqn:E;
    [cbn [length] in Hlen; lia|].
  cbn [length] in Hlen.
  split; [reflexivity|].
  rewrite (rolling_std_generated 252 x t) by lia.
  split; [reflexivity|]. split; [reflexivity|].
  apply Rmult_le_pos; [apply sqrt_pos|apply sqrt_pos].
Qed.

(** The volatility the loader reports is computed from the returns the
    series was generated with: the log returns of the stored prices are
    exactly those returns (the first day has none), so [get_volatility] with
    the default window is the sample standard deviation of the last 252
    generated returns, scaled by the square root of 252; it is a number and
    it is not negative. *)
Theorem volatility_recovers_returns (rng : nat -> R) (code : string)
    (p : DataLoader.params) :
  DataLoader.lookup code DataLoader.default_commodities = Some p ->
  exists offset vol,
    DataLoader.get_historical_prices (DataLoader.init rng) code
    = inr (DataLoader.price_series p rng offset)
    /\ DataLoader.log_returns (DataLoader.price_series p rng offset)
       = None :: map Some (tl (DataLoader.daily_returns p rng offset))
    /\ DataLoader.get_volatility (DataLoader.init rng) code 252 = inr (Some vol)
    /\ vol = DataLoader.sample_std
               (DataLoader.last_window 252 (DataLoader.daily_returns p rng offset))
             * sqrt 252
    /\ 0 <= vol.
Proof. apply loaded_volatility. Qed.

Lemma volatility_recovers_returns_witness :
  exists p offset vol,
    DataLoader.lookup "CORN" DataLoader.default_commodities = Some p
    /\ DataLoader.get_historical_prices (DataLoader.init no_shock) "CORN"
       = inr (DataLoader.price_series p no_shock offset)
    /\ DataLoader.get_volatility (DataLoader.init no_shock) "CORN" 252 = inr (Some vol)
    /\ 0 <= vol.
Proof.
  destruct (DataLoader.lookup "CORN" DataLoader.default_commodities) as [p|] eqn:Hp;
    [|discriminate Hp].
  destruct (volatility_recovers_returns no_shock "CORN" p Hp)
    as (offset & vol & H1 & _ & H3 & _ & H5).
  exists p, offset, vol; repeat split; assumption.
Defined.

(** For every state of the generator and each commodity of the loader, the
    simulator is constructed with a positive current price and a volatility
    that is not negative; a request that leaves the spot price at 0 then runs
    at the current price and, with a positive volume, a horizon that is not
    negative, at least one scenario and a recognised strategy, returns a
    result with finite metrics. *)
Theorem loaded_simulator_serves_requests (rng : nat -> R) (code : string) :
  In code (map fst DataLoader.default_commodities) ->
  exists sim,
    simulator_init code (DataLoader.init rng) = inr (Some sim)
    /\ commodity sim = code
    /\ 0 < current_price sim
    /\ 0 <= volatility sim
    /\ forall (draws : nat -> R) (volume : R) (time_horizon : Z)
              (strategy : string) (n_simulations : Z),
         0 < volume -> (0 <= time_horizon)%Z -> (0 < n_simulations)%Z ->
         In strategy known_strategies ->
         exists r,
           run_simulation sim draws volume 0 time_horizon strategy n_simulations = Ok r
           /\ result.spot_price r = current_price sim
           /\ 0 < worst_case (result.sample_scenarios r)
           /\ exists es ratio drawdown,
               metrics.es_95 (result.metrics r) = Some es
               /\ metrics.sharpe_ratio (result.metrics r) = Some ratio
               /\ metrics.max_drawdown (result.metrics r) = Some drawdown.
Proof.
  intros Hin.
  destruct (loaded_prices rng code Hin) as (series & price & _ & _ & _ & Hcur & _ & Hpos).
  apply lookup_keys in Hin; destruct Hin as [p Hp].
  destruct (loaded_volatility rng code p Hp) as (offset & vol & _ & _ & Hvol & _ & Hv0).
  exists {| commodity := code; current_price := price; volatility := vol |}.
  unfold simulator_init; rewrite Hcur, Hvol.
  split; [reflexivity|]. simpl.
  repeat (split; [reflexivity || assumption|]).
  intros draws volume time_horizon strategy n_simulations HV Hh Hn Hs.
  set (sim := {| commodity := code; current_price := price; volatility := vol |}).
  assert (Hres : resolved_spot sim 0 = price) by apply resolved_spot_sentinel.
  destruct (valid_request_finite sim draws volume 0 time_horizon strategy n_simulations
              HV ltac:(rewrite Hres; exact Hpos) Hh Hn Hs)
    as (r & Hr & Hworst & _ & _ & es & ratio & dd & Hes & _ & Hsh & _ & Hdd & _).
  exists r; split; [exact Hr|].
  destruct (run_simulation_ok_inv _ _ _ _ _ _ _ _ Hr)
    as (_ & _ & _ & _ & _ & _ & _ & _ & Hspot & _).
  split; [rewrite Hspot; exact Hres|].
  split; [exact Hworst|].
  exists es, ratio, dd; repeat split; assumption.
Qed.

Lemma loaded_simulator_serves_requests_witness :
  exists sim,
    simulator_init "COFFEE" (DataLoader.init no_shock) = inr (Some sim)
    /\ commodity sim = "COFFEE"%string
    /\ 0 < current_price sim
    /\ 0 <= volatility sim.
Proof.
  destruct (loaded_simulator_serves_requests no_shock "COFFEE")
    as (sim & H1 & H2 & H3 & H4 & _); [simpl; tauto|].
  exists sim; repeat split; assumption.
Defined.

(** * How hedging and volume act on the metrics *)

Lemma sum_scaled (c : R) (f : R -> R) (a : list R) :
  np.sum (map (fun v => c * f v) a) = c * np.sum (map f a).
Proof. induction a as [|x t IH]; simpl; [lra|rewrite IH; lra]. Qed.

Lemma sum_affine (c b : R) (a : list R) :
  np.sum (map (fun v => c + b * v) a) = INR (length a) * c + b * np.sum a.
Proof.
  induction a as [|x t IH]; [simpl; lra|].
  change (np.sum (map (fun v => c + b * v) (x :: t)))
    with (c + b * x + np.sum (map (fun v => c + b * v) t)).
  change (np.sum (x :: t)) with (x + np.sum t).
  change (length (x :: t)) with (S (length t)).
  rewrite IH, S_INR; lra.
Qed.

Lemma mean_affine (c b : R) (a : list R) :
  a <> [] -> np.mean (map (fun v => c + b * v) a) = c + b * np.mean a.
Proof.
  intros Hne; unfold np.mean; rewrite sum_affine, length_map.
  pose proof (INR_length_pos a Hne); field; lra.
Qed.

Lemma std_affine (c b : R) (a : list R) :
  a <> [] -> 0 <= b -> np.std (map (fun v => c + b * v) a) = b * np.std a.
Proof.
  intros Hne Hb; unfold np.std.
  rewrite mean_affine by exact Hne.
  set (m := np.mean a).
  rewrite map_map.
  rewrite (map_ext _ (fun v => (b * b) * ((v - m) * (v - m))))
    by (intros; ring).
  assert (Hmean : np.mean (map (fun v => b * b * ((v - m) * (v - m))) a)
                  = (b * b) * np.mean (map (fun v => (v - m) * (v - m)) a)).
  { unfold np.mean; rewrite (sum_scaled (b * b) (fun v => (v - m) * (v - m))).
    rewrite !length_map. pose proof (INR_length_pos a Hne); field; lra. }
  rewrite Hmean.
  rewrite sqrt_mult_alt by nra.
  rewrite sqrt_square by exact Hb. reflexivity.
Qed.

(** Hedging half of the volume halves the risk: the partial hedge has half
    the standard deviation of the unhedged position (for a volume that is
    not negative), and its mean is the midpoint between the unhedged mean and
    the fully hedged revenue. *)
Theorem partial_hedge_halves_risk (volume spot_price futures_price : R)
    (final_prices : list R) :
  final_prices <> [] -> 0 <= volume ->
  exists unhedged partial m_unhedged m_partial,
    calculate_pnl volume spot_price futures_price final_prices "no_hedge" = Ok unhedged
    /\ calculate_pnl volume spot_price futures_price final_prices "partial_hedge"
       = Ok partial
    /\ calculate_risk_metrics unhedged = Ok m_unhedged
    /\ calculate_risk_metrics partial = Ok m_partial
    /\ metrics.mean m_partial
       = (metrics.mean m_unhedged + volume * futures_price) / 2
    /\ metrics.std m_partial = metrics.std m_unhedged / 2.
Proof.
  intros Hne HV.
  rewrite calculate_pnl_no_hedge, calculate_pnl_partial_hedge.
  set (unhedged := map (fun p => volume * p) final_prices).
  assert (Hune : unhedged <> []).
  { intros E; apply map_eq_nil in E; contradiction. }
  assert (Hpartial : map (fun p => volume * 0.5 * futures_price + volume * (1 - 0.5) * p)
                       final_prices
                     = map (fun v => volume * futures_price / 2 + / 2 * v) unhedged).
  { unfold unhedged; rewrite map_map; apply map_ext; intros; lra. }
  rewrite Hpartial.
  set (partial := map _ unhedged).
  assert (Hpne : partial <> []).
  { intros E; apply map_eq_nil in E; contradiction. }
  destruct (calculate_risk_metrics_nonempty unhedged Hune)
    as (mu & Hmu & Hmean_u & Hstd_u & _).
  destruct (calculate_risk_metrics_nonempty partial Hpne)
    as (mp & Hmp & Hmean_p & Hstd_p & _).
  exists unhedged, partial, mu, mp.
  repeat (split; [reflexivity || assumption|]).
  rewrite Hmean_u, Hstd_u, Hmean_p, Hstd_p; unfold partial.
  rewrite mean_affine, std_affine by (assumption || lra).
  split; lra.
Qed.

Lemma partial_hedge_halves_risk_witness :
  exists unhedged partial m_unhedged m_partial,
    calculate_pnl 10000 4.5 4.5 [4; 5; 6] "no_hedge" = Ok unhedged
    /\ calculate_pnl 10000 4.5 4.5 [4; 5; 6] "partial_hedge" = Ok partial
    /\ calculate_risk_metrics unhedged = Ok m_unhedged
    /\ calculate_risk_metrics partial = Ok m_partial
    /\ metrics.mean m_partial = (metrics.mean m_unhedged + 10000 * 4.5) / 2
    /\ metrics.std m_partial = metrics.std m_unhedged / 2.
Proof.
  apply (partial_hedge_halves_risk 10000 4.5 4.5 [4; 5; 6]); [discriminate|lra].
Defined.

Lemma max_scaled (k : R) (a : list R) :
  a <> [] -> 0 <= k -> np.max (map (fun v => k * v) a) = k * np.max a.
Proof.
  intros Hne Hk; apply max_unique.
  - apply (in_map (fun v => k * v)), max_in, Hne.
  - intros y Hy; apply in_map_iff in Hy; destruct Hy as (v & <- & Hv).
    apply Rmult_le_compat_l; [exact Hk|apply max_ge, Hv].
Qed.

Lemma min_scaled (k : R) (a : list R) :
  a <> [] -> 0 <= k -> np.min (map (fun v => k * v) a) = k * np.min a.
Proof.
  intros Hne Hk; apply min_unique.
  - apply (in_map (fun v => k * v)), min_in, Hne.
  - intros y Hy; apply in_map_iff in Hy; destruct Hy as (v & <- & Hv).
    apply Rmult_le_compat_l; [exact Hk|apply min_le, Hv].
Qed.

Lemma sharpe_scaled (k mean_pnl std_pnl : R) :
  0 < k -> sharpe (k * mean_pnl) (k * std_pnl) = sharpe mean_pnl std_pnl.
Proof.
  intros Hk; unfold sharpe.
  destruct (Rlt_dec 0 std_pnl) as [Hs|Hs];
    destruct (Rlt_dec 0 (k * std_pnl)) as [Hks|Hks]; try reflexivity.
  - destruct (Req_dec_T mean_pnl 0) as [->|Hm].
    + rewrite Rmult_0_r, !fdiv_zero; reflexivity.
    + assert (Hkm : k * mean_pnl <> 0) by (apply Rmult_integral_contrapositive_currified; lra).
      rewrite !fdiv_some by assumption.
      assert (Hv : std_pnl / mean_pnl <> 0).
      { unfold Rdiv; apply Rmult_integral_contrapositive_currified;
          [lra|apply Rinv_neq_0_compat; exact Hm]. }
      assert (Hkv : k * std_pnl / (k * mean_pnl) <> 0).
      { unfold Rdiv; apply Rmult_integral_contrapositive_currified;
          [lra|apply Rinv_neq_0_compat; exact Hkm]. }
      rewrite !fdiv_some by assumption.
      f_equal; field; repeat split; lra.
  - exfalso; apply Hks; apply Rmult_lt_0_compat; assumption.
  - exfalso; apply Hs. nra.
Qed.

Lemma drawdown_scaled (k : R) (a : list R) :
  a <> [] -> 0 < k ->
  drawdown_fraction (map (fun v => k * v) a) = drawdown_fraction a.
Proof.
  intros Hne Hk.
  assert (Hne' : map (fun v => k * v) a <> []).
  { intros E; apply map_eq_nil in E; contradiction. }
  destruct (drawdown_fraction_closed a Hne) as (Hz & Hp & Hn).
  destruct (drawdown_fraction_closed _ Hne') as (Hz' & Hp' & Hn').
  rewrite max_scaled, min_scaled in * by (assumption || lra).
  destruct (Rlt_dec 0 (np.max a)) as [Hpos|Hnpos].
  - rewrite Hp, Hp' by nra. f_equal; field; lra.
  - destruct (Req_dec_T (np.max a) 0) as [H0|Hne0].
    + rewrite Hz, Hz' by (rewrite ?H0; lra); reflexivity.
    + rewrite Hn, Hn' by nra; reflexivity.
Qed.

(** The Sharpe ratio and the maximum drawdown do not depend on the size of
    the position when the pay-offs have some spread (two of them differ):
    multiplying the volume by a positive factor [k] multiplies the mean and
    the standard deviation of the pay-offs by [k], the deviation is positive
    before and after, and the Sharpe ratio and the maximum drawdown are
    unchanged. *)
Theorem ratios_independent_of_volume (k volume spot_price futures_price : R)
    (final_prices pnl : list R) (strategy : string) :
  0 < k ->
  (exists x y, In x pnl /\ In y pnl /\ x <> y) ->
  calculate_pnl volume spot_price futures_price final_prices strategy = Ok pnl ->
  exists pnl' m m',
    calculate_pnl (k * volume) spot_price futures_price final_prices strategy = Ok pnl'
    /\ calculate_risk_metrics pnl = Ok m
    /\ calculate_risk_metrics pnl' = Ok m'
    /\ 0 < metrics.std m
    /\ 0 < metrics.std m'
    /\ metrics.mean m' = k * metrics.mean m
    /\ metrics.std m' = k * metrics.std m
    /\ metrics.sharpe_ratio m' = metrics.sharpe_ratio m
    /\ metrics.max_drawdown m' = metrics.max_drawdown m.
Proof.
  intros Hk Hdiff Hpnl.
  assert (Hne : pnl <> []).
  { destruct Hdiff as (x & _ & Hx & _); intros ->; contradiction. }
  pose proof (spread_positive_std pnl Hdiff) as Hpos.
  pose proof (pnl_scales_with_volume_core k _ _ _ _ _ _ Hpnl) as Hscaled.
  set (pnl' := map (fun v => k * v) pnl) in *.
  assert (Hne' : pnl' <> []).
  { intros E; apply map_eq_nil in E; contradiction. }
  destruct (calculate_risk_metrics_nonempty pnl Hne)
    as (m & Hm & Hmean & Hstd & _ & _ & _ & _ & Hsh & _).
  destruct (calculate_risk_metrics_nonempty pnl' Hne')
    as (m' & Hm' & Hmean' & Hstd' & _ & _ & _ & _ & Hsh' & _).
  exists pnl', m, m'.
  repeat (split; [assumption|]).
  rewrite (calculate_risk_metrics_drawdown _ _ Hm), (calculate_risk_metrics_drawdown _ _ Hm').
  rewrite Hmean, Hstd, Hsh, Hmean', Hstd', Hsh'.
  assert (Hmk : np.mean pnl' = k * np.mean pnl).
  { unfold pnl'. rewrite (map_ext _ (fun v => 0 + k * v)) by (intros; lra).
    rewrite mean_affine by exact Hne; lra. }
  assert (Hsk : np.std pnl' = k * np.std pnl).
  { unfold pnl'. rewrite (map_ext _ (fun v => 0 + k * v)) by (intros; lra).
    apply std_affine; [exact Hne|lra]. }
  rewrite Hmk, Hsk.
  split; [exact Hpos|].
  split; [apply Rmult_lt_0_compat; assumption|].
  split; [reflexivity|]. split; [reflexivity|].
  split; [apply sharpe_scaled, Hk|].
  unfold pnl'; rewrite drawdown_scaled by assumption; reflexivity.
Qed.

Lemma ratios_independent_of_volume_witness :
  exists pnl' m m',
    calculate_pnl (3 * 10000) 4.5 4.5 [4; 5; 6] "no_hedge" = Ok pnl'
    /\ calculate_risk_metrics (map (fun p => 10000 * p) [4; 5; 6]) = Ok m
    /\ calculate_risk_metrics pnl' = Ok m'
    /\ 0 < metrics.std m
    /\ 0 < metrics.std m'
    /\ metrics.mean m' = 3 * metrics.mean m
    /\ metrics.std m' = 3 * metrics.std m
    /\ metrics.sharpe_ratio m' = metrics.sharpe_ratio m
    /\ metrics.max_drawdown m' = metrics.max_drawdown m.
Proof.
  apply (ratios_independent_of_volume 3 10000 4.5 4.5 [4; 5; 6] _ "no_hedge").
  - lra.
  - exists (10000 * 4), (10000 * 5); simpl.
    split; [left; reflexivity|]. split; [right; left; reflexivity|lra].
  - reflexivity.
Defined.

(** ** Expected shortfall against the mean *)

Lemma sum_filter_split (f : R -> bool) (a : list R) :
  np.sum a = np.sum (filter f a) + np.sum (filter (fun x => negb (f x)) a)
  /\ length a = (length (filter f a) + length (filter (fun x => negb (f x)) a))%nat.
Proof.
  induction a as [|x t [IHs IHl]]; [simpl; split; [lra|reflexivity]|].
  simpl; destruct (f x); simpl; rewrite IHs, IHl; split; lra || lia.
Qed.

Lemma tail_mean_below_mean (pnl : list R) (threshold : R) :
  tail_at pnl threshold <> [] ->
  np.mean (tail_at pnl threshold) <= np.mean pnl.
Proof.
  intros Htail.
  set (f := fun x : R => if Rle_dec x threshold then true else false).
  destruct (sum_filter_split f pnl) as [Hsum Hlen].
  fold (tail_at pnl threshold) in Hsum, Hlen.
  set (tail := tail_at pnl threshold) in *.
  set (rest := filter (fun x => negb (f x)) pnl) in *.
  change (filter f pnl) with tail in Hsum, Hlen.
  assert (Hrest : Forall (fun x => threshold <= x) rest).
  { apply Forall_forall; intros x Hx; apply filter_In in Hx; destruct Hx as [_ Hx].
    unfold f in Hx; destruct (Rle_dec x threshold); [discriminate|lra]. }
  assert (Htl : Forall (fun x => x <= threshold) tail).
  { pose proof (tail_at_bounded pnl threshold) as Hb.
    eapply Forall_impl; [|exact Hb]; simpl; intros; lra. }
  pose proof (sum_lower threshold rest Hrest) as Hlow.
  pose proof (mean_upper threshold tail Htail Htl) as Hmt.
  pose proof (INR_length_pos tail Htail) as Hnt.
  assert (Hnr : 0 <= INR (length rest)) by apply pos_INR.
  assert (Hst : np.sum tail = INR (length tail) * np.mean tail).
  { unfold np.mean; field; lra. }
  assert (Hn : INR (length pnl) = INR (length tail) + INR (length rest))
    by (rewrite Hlen, plus_INR; reflexivity).
  change (np.mean pnl) with (np.sum pnl / INR (length pnl)).
  rewrite Hn, Hsum, Hst.
  apply (Rmult_le_reg_r (INR (length tail) + INR (length rest))); [lra|].
  unfold Rdiv; rewrite Rmult_assoc, Rinv_l by lra.
  nra.
Qed.

(** The expected shortfall never exceeds the mean: the average of the
    entries at or below the value at risk is at most the average of all
    entries. *)
Theorem expected_shortfall_below_mean (pnl : list R) :
  pnl <> [] ->
  exists m es,
    calculate_risk_metrics pnl = Ok m
    /\ metrics.es_95 m = Some es
    /\ es <= metrics.mean m.
Proof.
  intros Hne.
  destruct (calculate_risk_metrics_nonempty pnl Hne)
    as (m & Hm & Hmean & _ & _ & _ & _ & Hes & _).
  assert (Hmin : np.min pnl <= np.percentile pnl 5)
    by (apply percentile_ge_min; [exact Hne|lra]).
  pose proof (tail_nonempty pnl _ Hne Hmin) as Htail.
  exists m, (np.mean (tail_at pnl (np.percentile pnl 5))).
  split; [exact Hm|]. rewrite Hes, Hmean. split.
  - destruct (tail_at pnl (np.percentile pnl 5)); [congruence|reflexivity].
  - apply tail_mean_below_mean, Htail.
Qed.

Lemma expected_shortfall_below_mean_witness :
  exists m es,
    calculate_risk_metrics [3; 1; 2] = Ok m
    /\ metrics.es_95 m = Some es
    /\ es <= metrics.mean m.
Proof.
  apply (expected_shortfall_below_mean [3; 1; 2]); discriminate.
Defined.
